(** * TurboVue: the resource binder [createTurboResource]

    A shallow embedding of the most complete version of the binder (the
    one whose actions include [createStale]) and the properties its
    specification states about it.

    The binder is a TypeScript module on top of two external libraries:
    the cache engine (turbo-query: [query], [mutate], [subscribe],
    [forget], [abort], [expiration]) and the reactive runtime (Vue: [ref],
    [computed], [watch]).  The binder's own functions are translated
    statement by statement into a state monad over a [World]; the two
    libraries are modelled by the part of their contract the binder
    relies on:

    - the engine keeps a registry of live event listeners; [subscribe]
      adds one and returns a disposer that removes exactly that one;
    - [watch(source, cb)] runs [cb] when the watched value has changed
      ([Object.is]), calls the registered cleanup just before, and keeps
      one cleanup slot that [onCleanup] overwrites (the runtime the
      package is built against, Vue 3.2);
    - a [ref] notifies its watchers only when it is assigned a value that
      differs from the one it holds;
    - an [await] suspends the running function; the environment resumes
      it later with the value (or the rejection) of the promise.

    Everything the binder does to the outside is appended to a trace of
    [Effect]s. *)

From Stdlib Require Import ZArith List String Bool Lia.
From stdpp Require Import base option list gmap strings.

Local Open Scope string_scope.
Local Open Scope Z_scope.
Local Open Scope list_scope.
Local Open Scope stdpp_scope.

(** ** JavaScript values and objects *)

(** Values that flow through the binder.  Numbers are the integral
    millisecond values the code computes with; an object is known by its
    reference only, which is what [Object.is] compares. *)
Inductive JsVal :=
| VUndef
| VNull
| VBool (b : bool)
| VNum (n : Z)
| VStr (s : string)
| VObj (r : nat).

#[global] Instance JsVal_eq_dec : EqDecision JsVal.
Proof. solve_decision. Defined.

(** [Object.is] on the values above. *)
Definition object_is (a b : JsVal) : bool := bool_decide (a = b).

(** [hasChanged] of the reactive runtime. *)
Definition hasChanged (a b : JsVal) : bool := negb (object_is a b).

(** Truthiness, as tested by [if (v)], [!v] and [v && ...]. *)
Definition js_truthy (v : JsVal) : bool :=
  match v with
  | VUndef | VNull => false
  | VBool b => b
  | VNum n => negb (Z.eqb n 0)
  | VStr s => negb (String.eqb s "")
  | VObj _ => true
  end.

(** A plain object used as a bag of options: own properties by name. *)
Abbreviation JsObj := (gmap string JsVal).

(** [{ ...a, ...b }]: the properties of [b] win over those of [a]. *)
Definition spread (a b : JsObj) : JsObj := b ∪ a.

(** [...o] for an optional object: spreading [undefined] adds nothing. *)
Definition props (o : option JsObj) : JsObj := default ∅ o.

(** [o?.f], with [None] for a nullish result. *)
Definition member (o : option JsObj) (f : string) : option JsVal :=
  match o with
  | None => None
  | Some m =>
      match m !! f with
      | None | Some VUndef | Some VNull => None
      | Some v => Some v
      end
  end.

(** [a ?? b ?? d]. *)
Definition coalesce (a b : option JsVal) (d : JsVal) : JsVal :=
  match a with
  | Some v => v
  | None => match b with Some v => v | None => d end
  end.

(** ** Keys *)

(** What a key function evaluates to: it returns or it throws. *)
Inductive Outcome (A : Type) :=
| Returns (a : A)
| Throws (e : JsVal).
Arguments Returns {A} a.
Arguments Throws {A} e.

(** [type TurboVueKey = () => string | false | null].  The function reads
    reactive state; a change of that state is a new behaviour of the
    function (see [DepsChanged] below). *)
Inductive KeyVal :=
| KString (s : string)
| KFalse
| KNull.

#[global] Instance KeyVal_eq_dec : EqDecision KeyVal.
Proof. solve_decision. Defined.

Definition TurboVueKey : Type := unit → Outcome KeyVal.

(** [if (key)]: only a non-empty string is an active key. *)
Definition active (k : KeyVal) : option string :=
  match k with
  | KString s => if String.eqb s "" then None else Some s
  | KFalse | KNull => None
  end.

(** [const computedKey = computed(function () { try { return key() }
    catch { return null } })]. *)
Definition computedKey (key : TurboVueKey) : KeyVal :=
  match key tt with
  | Returns k => k
  | Throws _ => KNull
  end.

(** ** The cache engine, the window and the trace *)

(** The module-level primitives imported from the engine, or those of an
    engine instance passed as [turbo] (known by its reference). *)
Inductive Engine :=
| ModuleEngine
| InstanceEngine (r : nat).

#[global] Instance Engine_eq_dec : EqDecision Engine.
Proof. solve_decision. Defined.

Inductive EventKind := Mutated | Refetching | Resolved | Error | Forgotten.

#[global] Instance EventKind_eq_dec : EqDecision EventKind.
Proof. solve_decision. Defined.

Inductive WindowEvent := Focus | Online.

#[global] Instance WindowEvent_eq_dec : EqDecision WindowEvent.
Proof. solve_decision. Defined.

(** A live listener in an engine's registry.  Its callback is one of the
    five closures of the key watcher; they read no per-key variable, so
    the event kind determines the callback. *)
Record Subscription := mkSub {
  sub_id : nat;
  sub_engine : Engine;
  sub_key : string;
  sub_kind : EventKind
}.

(** The functions returned by [subscribe], [onFocus] and [onConnect]. *)
Inductive Disposer :=
| DNoop                                   (* [() => {}] *)
| DUnsubscribe (id : nat)                 (* remove engine listener [id] *)
| DRemoveListener (ev : WindowEvent) (id : nat).

(** The seven disposers captured by the cleanup closure of the key
    watcher, under the names of the source. *)
Record SubscriptionSet := mkSet {
  unsubscribeMutate : Disposer;
  unsubscribeRefetching : Disposer;
  unsubscribeResolved : Disposer;
  unsubscribeErrors : Disposer;
  unsubscribeForgotten : Disposer;
  unsubscribeFocusRefetch : Disposer;
  unsubscribeConnectRefetch : Disposer
}.

Inductive Effect :=
| ESubscribe (e : Engine) (k : string) (ev : EventKind) (id : nat)
| EUnsubscribe (id : nat)
| EAddListener (ev : WindowEvent) (id : nat)
| ERemoveListener (ev : WindowEvent) (id : nat)
| EQuery (e : Engine) (k : string) (opts : JsObj)
| EMutate (e : Engine) (k : string) (item : JsVal)
| EForget (e : Engine) (k : string)
| EAbort (e : Engine) (k : string) (reason : JsVal)
| ERethrow (v : JsVal)            (* thrown by the watcher on [error] *)
| ERejected (v : JsVal).          (* the key watcher's callback rejected *)

(** ** The world *)

(** Where [createTurboResource] stands. *)
Inductive Stage :=
| Starting                        (* [createTurboResource] is being called *)
| AwaitingInitial                 (* suspended at the initial [await] *)
| Running                         (* the binder has been returned *)
| Failed (e : JsVal).             (* the promise of the binder rejected *)

(** The state the reactive runtime keeps for [watch(computedKey, ...)]:
    whether the watcher is active, the value it saw last ([None] before
    the first run) and the cleanup slot. *)
Record Watcher := mkWatcher {
  w_active : bool;
  w_old : option KeyVal;
  w_cleanup : option SubscriptionSet
}.

Record World := mkWorld {
  (* the key function in the current reactive state *)
  key : TurboVueKey;
  (* the cells of the binder *)
  resource : JsVal;
  error : JsVal;
  isRefetching : bool;
  lastFocus : Z;
  (* the reactive runtime *)
  stage : Stage;
  errorSeen : JsVal;              (* last value seen by [watch(error)] *)
  watcher : option Watcher;       (* [None] until the watcher is installed *)
  pending : list (nat * SubscriptionSet);
                                  (* suspended runs of the watcher callback *)
  (* the environment *)
  subscriptions : list Subscription;
  listeners : list (WindowEvent * nat);
  clock : Z;                      (* [new Date().getTime()] *)
  fresh : nat;
  trace : list Effect
}.

Definition set_key (x : TurboVueKey) (w : World) : World :=
  mkWorld x (resource w) (error w) (isRefetching w) (lastFocus w) (stage w)
    (errorSeen w) (watcher w) (pending w) (subscriptions w) (listeners w)
    (clock w) (fresh w) (trace w).
Definition set_resource (x : JsVal) (w : World) : World :=
  mkWorld (key w) x (error w) (isRefetching w) (lastFocus w) (stage w)
    (errorSeen w) (watcher w) (pending w) (subscriptions w) (listeners w)
    (clock w) (fresh w) (trace w).
Definition set_error (x : JsVal) (w : World) : World :=
  mkWorld (key w) (resource w) x (isRefetching w) (lastFocus w) (stage w)
    (errorSeen w) (watcher w) (pending w) (subscriptions w) (listeners w)
    (clock w) (fresh w) (trace w).
Definition set_isRefetching (x : bool) (w : World) : World :=
  mkWorld (key w) (resource w) (error w) x (lastFocus w) (stage w)
    (errorSeen w) (watcher w) (pending w) (subscriptions w) (listeners w)
    (clock w) (fresh w) (trace w).
Definition set_lastFocus (x : Z) (w : World) : World :=
  mkWorld (key w) (resource w) (error w) (isRefetching w) x (stage w)
    (errorSeen w) (watcher w) (pending w) (subscriptions w) (listeners w)
    (clock w) (fresh w) (trace w).
Definition set_stage (x : Stage) (w : World) : World :=
  mkWorld (key w) (resource w) (error w) (isRefetching w) (lastFocus w) x
    (errorSeen w) (watcher w) (pending w) (subscriptions w) (listeners w)
    (clock w) (fresh w) (trace w).
Definition set_errorSeen (x : JsVal) (w : World) : World :=
  mkWorld (key w) (resource w) (error w) (isRefetching w) (lastFocus w)
    (stage w) x (watcher w) (pending w) (subscriptions w) (listeners w)
    (clock w) (fresh w) (trace w).
Definition set_watcher (x : option Watcher) (w : World) : World :=
  mkWorld (key w) (resource w) (error w) (isRefetching w) (lastFocus w)
    (stage w) (errorSeen w) x (pending w) (subscriptions w) (listeners w)
    (clock w) (fresh w) (trace w).
Definition set_pending (x : list (nat * SubscriptionSet)) (w : World) : World :=
  mkWorld (key w) (resource w) (error w) (isRefetching w) (lastFocus w)
    (stage w) (errorSeen w) (watcher w) x (subscriptions w) (listeners w)
    (clock w) (fresh w) (trace w).
Definition set_subscriptions (x : list Subscription) (w : World) : World :=
  mkWorld (key w) (resource w) (error w) (isRefetching w) (lastFocus w)
    (stage w) (errorSeen w) (watcher w) (pending w) x (listeners w)
    (clock w) (fresh w) (trace w).
Definition set_listeners (x : list (WindowEvent * nat)) (w : World) : World :=
  mkWorld (key w) (resource w) (error w) (isRefetching w) (lastFocus w)
    (stage w) (errorSeen w) (watcher w) (pending w) (subscriptions w) x
    (clock w) (fresh w) (trace w).
Definition set_clock (x : Z) (w : World) : World :=
  mkWorld (key w) (resource w) (error w) (isRefetching w) (lastFocus w)
    (stage w) (errorSeen w) (watcher w) (pending w) (subscriptions w)
    (listeners w) x (fresh w) (trace w).
Definition set_fresh (x : nat) (w : World) : World :=
  mkWorld (key w) (resource w) (error w) (isRefetching w) (lastFocus w)
    (stage w) (errorSeen w) (watcher w) (pending w) (subscriptions w)
    (listeners w) (clock w) x (trace w).
Definition set_trace (x : list Effect) (w : World) : World :=
  mkWorld (key w) (resource w) (error w) (isRefetching w) (lastFocus w)
    (stage w) (errorSeen w) (watcher w) (pending w) (subscriptions w)
    (listeners w) (clock w) (fresh w) x.

Arguments set_key _ _ /.
Arguments set_resource _ _ /.
Arguments set_error _ _ /.
Arguments set_isRefetching _ _ /.
Arguments set_lastFocus _ _ /.
Arguments set_stage _ _ /.
Arguments set_errorSeen _ _ /.
Arguments set_watcher _ _ /.
Arguments set_pending _ _ /.
Arguments set_subscriptions _ _ /.
Arguments set_listeners _ _ /.
Arguments set_clock _ _ /.
Arguments set_fresh _ _ /.
Arguments set_trace _ _ /.

(** ** Actions: functions of the source as state transformers *)

Definition Act (A : Type) : Type := World → A * World.

#[global] Instance Act_ret : MRet Act := λ A a w, (a, w).
#[global] Instance Act_bind : MBind Act :=
  λ A B f m w, let '(a, w') := m w in f a w'.

Definition get {A} (f : World → A) : Act A := λ w, (f w, w).
Definition put (f : World → World) : Act unit := λ w, (tt, f w).
Definition exec {A} (m : Act A) (w : World) : World := snd (m w).
Definition emit (e : Effect) : Act unit :=
  put (λ w, set_trace (trace w ++ [e]) w).
Definition gensym : Act nat :=
  λ w, (fresh w, set_fresh (S (fresh w)) w).
Definition skip : Act unit := mret tt.

(** Run an action once for every element of a list, in order. *)
Fixpoint for_each {A} (f : A → Act unit) (l : list A) : Act unit :=
  match l with
  | [] => skip
  | x :: l' => f x;; for_each f l'
  end.

(** ** The binder *)

Section Binder.

(** The [options] argument, the injected context options and whether
    the host has a window ([typeof window !== 'undefined']). *)
Variable options : option JsObj.
Variable contextOptions : option JsObj.
Variable window : bool.

(** *** Resolution of the options *)

(** [o?.turbo]: an engine instance carries all six primitives (type
    [TurboQuery]), so [o?.turbo?.query] and its five siblings are
    defined exactly when [o?.turbo] is an object. *)
Definition turboOf (o : option JsObj) : option Engine :=
  match member o "turbo" with
  | Some (VObj r) => Some (InstanceEngine r)
  | _ => None
  end.

(** [options?.turbo?.f ?? contextOptions?.turbo?.f ?? f], the same
    expression for [f] among [query], [mutate], [subscribe], [forget],
    [abort] and [expiration]. *)
Definition facade : Engine :=
  match turboOf options with
  | Some e => e
  | None => default ModuleEngine (turboOf contextOptions)
  end.

Definition refetchOnFocus : bool :=
  js_truthy (coalesce (member options "refetchOnFocus")
               (member contextOptions "refetchOnFocus") (VBool true)).

Definition refetchOnConnect : bool :=
  js_truthy (coalesce (member options "refetchOnConnect")
               (member contextOptions "refetchOnConnect") (VBool true)).

(** [focusInterval] is typed [number | undefined]; a value of another
    type cannot be passed and is read here as the default. *)
Definition focusInterval : Z :=
  match coalesce (member options "focusInterval")
          (member contextOptions "focusInterval") (VNum 5000) with
  | VNum n => n
  | _ => 5000
  end.

Definition clearOnForget : bool :=
  js_truthy (coalesce (member options "clearOnForget")
               (member contextOptions "clearOnForget") (VBool false)).

(** *** The resolved primitives *)

(** The call [turboQuery(k, opts)]; awaiting its promise is the
    suspension of the caller. *)
Definition turboQuery (k : string) (opts : JsObj) : Act unit :=
  emit (EQuery facade k opts).

Definition turboMutate (k : string) (item : JsVal) : Act unit :=
  emit (EMutate facade k item).

Definition turboForget (k : string) : Act unit :=
  emit (EForget facade k).

Definition turboAbort (k : string) (reason : JsVal) : Act unit :=
  emit (EAbort facade k reason).

Definition turboSubscribe (k : string) (ev : EventKind) : Act Disposer :=
  id ← gensym;
  put (λ w, set_subscriptions (subscriptions w ++ [mkSub id facade k ev]) w);;
  emit (ESubscribe facade k ev id);;
  mret (DUnsubscribe id).

(** Calling a disposer.  Removing a listener that is gone is harmless. *)
Definition dispose (d : Disposer) : Act unit :=
  match d with
  | DNoop => skip
  | DUnsubscribe id =>
      put (λ w, set_subscriptions
                  (filter (λ s, sub_id s ≠ id) (subscriptions w)) w);;
      emit (EUnsubscribe id)
  | DRemoveListener ev id =>
      put (λ w, set_listeners
                  (filter (λ l, l ≠ (ev, id)) (listeners w)) w);;
      emit (ERemoveListener ev id)
  end.

(** *** Key and fetch options *)

(** [computedKey.value]. *)
Definition currentKey : Act KeyVal := get (λ w, computedKey (key w)).

(** [{ stale: true, ...options }]. *)
Definition queryOptions : JsObj :=
  spread {[ "stale" := VBool true ]} (props options).

(** [{ stale: false, ...options, ...ops }]. *)
Definition refetchOptions (ops : option JsObj) : JsObj :=
  spread (spread {[ "stale" := VBool false ]} (props options)) (props ops).

(** *** Actions of the binder *)

(** How an [async] action returns: at once with a value, or with the
    value of the query it awaits. *)
Inductive Completion :=
| Completed (v : JsVal)
| AwaitsQuery.

(** [async function refetch(ops)]. *)
Definition refetch (ops : option JsObj) : Act Completion :=
  k ← currentKey;
  match active k with
  | None => mret (Completed VUndef)
  | Some s => turboQuery s (refetchOptions ops);; mret AwaitsQuery
  end.

(** [return await turboQuery(...)]: what the promise of [refetch]
    settles with when the awaited query resolves with [answer]. *)
Definition refetch_value (c : Completion) (answer : JsVal) : JsVal :=
  match c with
  | Completed v => v
  | AwaitsQuery => answer
  end.

Definition localMutate (item : JsVal) : Act unit :=
  k ← currentKey;
  match active k with
  | None => skip
  | Some s => turboMutate s item
  end.

Definition localForget : Act unit :=
  k ← currentKey;
  match active k with
  | None => skip
  | Some s => turboForget s
  end.

Definition localAbort (reason : JsVal) : Act unit :=
  k ← currentKey;
  match active k with
  | None => skip
  | Some s => turboAbort s reason
  end.

(** *** Environment triggers *)

(** The [rawHandler] closure of [onFocus]. *)
Definition rawHandler (listener : Act unit) : Act unit :=
  last ← get lastFocus;
  now ← get clock;
  if (now - last >? focusInterval)%Z then
    now' ← get clock;
    put (set_lastFocus now');;
    listener
  else skip.

Definition addEventListener (ev : WindowEvent) : Act Disposer :=
  id ← gensym;
  put (λ w, set_listeners (listeners w ++ [(ev, id)]) w);;
  emit (EAddListener ev id);;
  mret (DRemoveListener ev id).

Definition onFocus : Act Disposer :=
  if refetchOnFocus && window then addEventListener Focus else mret DNoop.

Definition onConnect : Act Disposer :=
  if refetchOnConnect && window then addEventListener Online else mret DNoop.

(** The listener handed to both: [function () { refetch() }]. *)
Definition refetchListener : Act unit := refetch None;; skip.

(** *** The watcher on [error] *)

(** [watch(error, function (e) { if (e !== undefined) throw e })], as
    the runtime runs it at a flush: the callback is called when the
    cell holds a value other than the one seen last. *)
Definition errorJob : Act unit :=
  e ← get error;
  seen ← get errorSeen;
  if hasChanged e seen then
    (if bool_decide (e ≠ VUndef) then emit (ERethrow e) else skip);;
    put (set_errorSeen e)
  else skip.

(** *** The watcher on [computedKey] *)

(** The five listeners the callback hands to [turboSubscribe]. *)
Definition onEvent (ev : EventKind) (payload : JsVal) : Act unit :=
  match ev with
  | Mutated => put (set_resource payload)
  | Refetching => put (set_isRefetching true)
  | Resolved => put (set_isRefetching false);; put (set_resource payload)
  | Error => put (set_isRefetching false);; put (set_error payload)
  | Forgotten => if clearOnForget then put (set_resource VUndef) else skip
  end.

(** The runtime's [onCleanup]: it overwrites the slot. *)
Definition onCleanup (s : SubscriptionSet) : Act unit :=
  put (λ w, set_watcher
              (option_map (λ wt, mkWatcher (w_active wt) (w_old wt) (Some s))
                 (watcher w)) w).

(** The closure handed to [onCleanup]. *)
Definition cleanup (s : SubscriptionSet) : Act unit :=
  dispose (unsubscribeMutate s);;
  dispose (unsubscribeRefetching s);;
  dispose (unsubscribeResolved s);;
  dispose (unsubscribeErrors s);;
  dispose (unsubscribeForgotten s);;
  dispose (unsubscribeFocusRefetch s);;
  dispose (unsubscribeConnectRefetch s).

(** [await]: the run of the callback is parked with the disposers it
    has captured. *)
Definition suspend (s : SubscriptionSet) : Act unit :=
  p ← gensym;
  put (λ w, set_pending (pending w ++ [(p, s)]) w).

(** The callback, up to its [await]. *)
Definition watchCallback (k : KeyVal) : Act unit :=
  put (set_isRefetching false);;
  match active k with
  | None => skip
  | Some s =>
      unsubscribeMutate ← turboSubscribe s Mutated;
      unsubscribeRefetching ← turboSubscribe s Refetching;
      unsubscribeResolved ← turboSubscribe s Resolved;
      unsubscribeErrors ← turboSubscribe s Error;
      unsubscribeForgotten ← turboSubscribe s Forgotten;
      unsubscribeFocusRefetch ← onFocus;
      unsubscribeConnectRefetch ← onConnect;
      turboQuery s queryOptions;;
      suspend (mkSet unsubscribeMutate unsubscribeRefetching
                 unsubscribeResolved unsubscribeErrors unsubscribeForgotten
                 unsubscribeFocusRefetch unsubscribeConnectRefetch)
  end.

(** The callback, from its [await] on: [resource.value = <answer>] and
    [onCleanup(...)].  A rejection ends the callback at the [await]; the
    runtime reports it. *)
Definition watchCallback_resume (s : SubscriptionSet) (r : Outcome JsVal)
  : Act unit :=
  match r with
  | Returns v => put (set_resource v);; onCleanup s
  | Throws e => emit (ERejected e)
  end.

(** The runtime's job for the watcher: nothing when stopped or when
    the value is the one seen last; else the cleanup in the slot, the
    callback, and the new value remembered. *)
Definition job : Act unit :=
  o ← get watcher;
  match o with
  | None => skip
  | Some wt =>
      if w_active wt then
        newValue ← currentKey;
        if bool_decide (w_old wt ≠ Some newValue) then
          from_option cleanup skip (w_cleanup wt);;
          watchCallback newValue;;
          put (λ w, set_watcher
                      (option_map (λ wt', mkWatcher (w_active wt')
                                            (Some newValue) (w_cleanup wt'))
                         (watcher w)) w)
        else skip
      else skip
  end.

(** The function returned by [watch]: stopping runs the cleanup in the
    slot once and deactivates the watcher. *)
Definition unsubscribe : Act unit :=
  o ← get watcher;
  match o with
  | None => skip
  | Some wt =>
      if w_active wt then
        from_option cleanup skip (w_cleanup wt);;
        put (set_watcher (Some (mkWatcher false (w_old wt) (w_cleanup wt))))
      else skip
  end.

(** *** [createTurboResource] *)

(** From [const lastFocus = ref(new Date())] to the [return]: the
    watcher is installed with [immediate: true], so its job runs at
    once. *)
Definition createTurboResource_rest : Act unit :=
  now ← get clock;
  put (set_lastFocus now);;
  put (set_watcher (Some (mkWatcher true None None)));;
  job;;
  put (set_stage Running).

(** Up to the initial [await], or to the end when there is none. *)
Definition createTurboResource : Act unit :=
  k ← currentKey;
  match active k with
  | Some s => turboQuery s queryOptions;; put (set_stage AwaitingInitial)
  | None => createTurboResource_rest
  end.

(** From the initial [await] on. *)
Definition createTurboResource_resume (r : Outcome JsVal) : Act unit :=
  match r with
  | Returns v => put (set_resource v);; createTurboResource_rest
  | Throws e => put (set_stage (Failed e))
  end.

(** The world in which [createTurboResource(key, options)] is called at
    time [now]. *)
Definition boot (key : TurboVueKey) (now : Z) : World :=
  mkWorld key VUndef VUndef false now Starting VUndef None [] [] [] now 0 [].

(** *** The environment *)

Inductive Input :=
| InitialSettled (r : Outcome JsVal)     (* the initial query settles *)
| DepsChanged (key' : TurboVueKey)       (* reactive state changes; flush *)
| QuerySettled (p : nat) (r : Outcome JsVal)
                                         (* a query of the watcher settles *)
| CacheEvent (e : Engine) (k : string) (ev : EventKind) (payload : JsVal)
| WindowFires (ev : WindowEvent)
| Elapse (dt : N)                        (* time passes *)
| Flush                                  (* the runtime flushes [watch(error)] *)
| CallRefetch (ops : option JsObj)
| CallMutate (item : JsVal)
| CallForget
| CallAbort (reason : JsVal)
| CallUnsubscribe.

(** The engine dispatches an event to the listeners registered for it,
    in the order of registration. *)
Definition listening (e : Engine) (k : string) (ev : EventKind)
    (subs : list Subscription) : list Subscription :=
  filter (λ s, sub_engine s = e ∧ sub_key s = k ∧ sub_kind s = ev) subs.

Definition dispatch (e : Engine) (k : string) (ev : EventKind)
    (payload : JsVal) : Act unit :=
  subs ← get subscriptions;
  for_each (λ s, onEvent (sub_kind s) payload) (listening e k ev subs).

(** The window dispatches an event to its listeners. *)
Definition fire (ev : WindowEvent) : Act unit :=
  ls ← get listeners;
  for_each (λ _, match ev with
                 | Focus => rawHandler refetchListener
                 | Online => refetchListener
                 end)
    (filter (λ l, l.1 = ev) ls).

(** A parked run of the callback is resumed, once. *)
Definition settle (p : nat) (r : Outcome JsVal) : Act unit :=
  ps ← get pending;
  match list_find (λ e, e.1 = p) ps with
  | None => skip
  | Some (_, (_, s)) =>
      put (set_pending (filter (λ e, e.1 ≠ p) ps));;
      watchCallback_resume s r
  end.

(** The actions of the binder exist for the caller once it has been
    returned. *)
Definition whenRunning (m : Act unit) : Act unit :=
  st ← get stage;
  match st with
  | Running => m
  | _ => skip
  end.

Definition step (i : Input) : Act unit :=
  match i with
  | InitialSettled r =>
      st ← get stage;
      match st with
      | AwaitingInitial => createTurboResource_resume r
      | _ => skip
      end
  | DepsChanged key' => put (set_key key');; job
  | QuerySettled p r => settle p r
  | CacheEvent e k ev payload => dispatch e k ev payload
  | WindowFires ev => fire ev
  | Elapse dt => put (λ w, set_clock (clock w + Z.of_N dt) w)
  | Flush => errorJob
  | CallRefetch ops => whenRunning (refetch ops;; skip)
  | CallMutate item => whenRunning (localMutate item)
  | CallForget => whenRunning localForget
  | CallAbort reason => whenRunning (localAbort reason)
  | CallUnsubscribe => whenRunning unsubscribe
  end.

Definition run (inputs : list Input) (w : World) : World :=
  fold_left (λ w i, exec (step i) w) inputs w.

(** [createTurboResource(key, options)] called at time [now]. *)
Definition create (key : TurboVueKey) (now : Z) : World :=
  exec createTurboResource (boot key now).

End Binder.

(** ** The staleness tracker [createStale] *)

(** A timer started by [setInterval(callback, precision)]; the callback
    of the tracker reads the key it was created for. *)
Record Interval := mkInterval {
  iv_id : nat;
  iv_precision : Z;
  iv_key : KeyVal
}.

(** The tracker with what it reads: the key function of the binder, the
    module-level [expiration] of the engine (a table from keys to
    [expiresAt.getTime()]) and the clock. *)
Record Tracker := mkTracker {
  t_key : TurboVueKey;
  t_expiration : gmap string Z;
  t_clock : Z;
  t_precision : Z;
  (* the two cells handed to the caller *)
  isStale : bool;
  staleIn : Z;
  (* [watch(computedKey, ...)]: no [immediate] *)
  t_active : bool;
  t_old : KeyVal;
  t_cleanup : option nat;
  (* the running timers *)
  t_intervals : list Interval;
  t_fresh : nat
}.

Definition set_stale (b : bool) (n : Z) (t : Tracker) : Tracker :=
  mkTracker (t_key t) (t_expiration t) (t_clock t) (t_precision t) b n
    (t_active t) (t_old t) (t_cleanup t) (t_intervals t) (t_fresh t).
Definition set_t_watch (a : bool) (o : KeyVal) (c : option nat) (t : Tracker)
  : Tracker :=
  mkTracker (t_key t) (t_expiration t) (t_clock t) (t_precision t) (isStale t)
    (staleIn t) a o c (t_intervals t) (t_fresh t).
Definition set_t_intervals (l : list Interval) (n : nat) (t : Tracker)
  : Tracker :=
  mkTracker (t_key t) (t_expiration t) (t_clock t) (t_precision t) (isStale t)
    (staleIn t) (t_active t) (t_old t) (t_cleanup t) l n.
Definition set_t_env (k : TurboVueKey) (e : gmap string Z) (c : Z)
    (t : Tracker) : Tracker :=
  mkTracker k e c (t_precision t) (isStale t) (staleIn t) (t_active t)
    (t_old t) (t_cleanup t) (t_intervals t) (t_fresh t).

Arguments set_stale _ _ _ /.
Arguments set_t_watch _ _ _ _ /.
Arguments set_t_intervals _ _ _ /.
Arguments set_t_env _ _ _ _ /.

(** The synchronous part of [createStale(precision)], called at time
    [now]: the initial pair, the two cells and the watcher, which records
    the current key and does not run its callback. *)
Definition createStale (precision : Z) (key : TurboVueKey)
    (expiration : gmap string Z) (now : Z) : Tracker :=
  let initialKey := computedKey key in
  let initial :=
    match active initialKey with
    | Some k =>
        match expiration !! k with
        | Some expiresAt =>
            let expirationIn := expiresAt - now in
            (expiresAt <? now,
             if expirationIn >=? 0 then expirationIn else 0)
        | None => (true, 0)
        end
    | None => (true, 0)
    end in
  mkTracker key expiration now precision initial.1 initial.2
    true initialKey None [] 0.

(** The callback given to [setInterval], for the key [k] it closes
    over. *)
Definition poll (k : KeyVal) (t : Tracker) : Tracker :=
  match active k with
  | None => t
  | Some s =>
      match t_expiration t !! s with
      | None => t
      | Some expiresAt =>
          let now := t_clock t in
          let expirationIn := expiresAt - now in
          let staleIn' :=
            if expirationIn >=? 0 then expirationIn
            else if (expirationIn <? 0) && (staleIn t >? 0) then 0
            else staleIn t in
          set_stale (expiresAt <? now) staleIn' t
      end
  end.

Definition clearInterval (id : nat) (t : Tracker) : Tracker :=
  set_t_intervals (filter (λ i, iv_id i ≠ id) (t_intervals t)) (t_fresh t) t.

(** The callback of the tracker's watcher: start a timer and register
    its [clearInterval] as the cleanup. *)
Definition staleCallback (k : KeyVal) (t : Tracker) : Tracker :=
  let interval := t_fresh t in
  let t' :=
    set_t_intervals (t_intervals t ++ [mkInterval interval (t_precision t) k])
      (S interval) t in
  set_t_watch (t_active t') (t_old t') (Some interval) t'.

(** The runtime's job for the tracker's watcher. *)
Definition staleJob (t : Tracker) : Tracker :=
  if t_active t then
    let newValue := computedKey (t_key t) in
    if bool_decide (t_old t ≠ newValue) then
      let t1 := from_option clearInterval id (t_cleanup t) t in
      let t2 := staleCallback newValue t1 in
      set_t_watch (t_active t2) newValue (t_cleanup t2) t2
    else t
  else t.

(** [onUnmounted(function () { unsubscribe() })]. *)
Definition staleStop (t : Tracker) : Tracker :=
  if t_active t then
    let t1 := from_option clearInterval id (t_cleanup t) t in
    set_t_watch false (t_old t1) (t_cleanup t1) t1
  else t.

Inductive TrackerInput :=
| TDepsChanged (key' : TurboVueKey)       (* reactive state changes; flush *)
| TCache (k : string) (expiresAt : option Z)
                                          (* the engine (re)dates or drops [k] *)
| TElapse (dt : N)                        (* time passes *)
| TFires (id : nat)                       (* the runtime fires timer [id] *)
| TUnmounted.

Definition trackerStep (i : TrackerInput) (t : Tracker) : Tracker :=
  match i with
  | TDepsChanged key' =>
      staleJob (set_t_env key' (t_expiration t) (t_clock t) t)
  | TCache k e =>
      set_t_env (t_key t)
        (match e with
         | Some x => <[k := x]> (t_expiration t)
         | None => delete k (t_expiration t)
         end) (t_clock t) t
  | TElapse dt => set_t_env (t_key t) (t_expiration t) (t_clock t + Z.of_N dt) t
  | TFires i =>
      match list_find (λ iv, iv_id iv = i) (t_intervals t) with
      | Some (_, iv) => poll (iv_key iv) t
      | None => t
      end
  | TUnmounted => staleStop t
  end.

Definition trackerRun (inputs : list TrackerInput) (t : Tracker) : Tracker :=
  fold_left (λ t i, trackerStep i t) inputs t.

(** The timers of a tracker: none, or the one its cleanup clears. *)
Definition one_timer (t : Tracker) : Prop :=
  t_intervals t = [] ∨
  ∃ iv, t_intervals t = [iv] ∧ t_cleanup t = Some (iv_id iv) ∧
        iv_key iv = t_old t ∧ t_active t = true.

(** ** Observations *)

(** The queries issued, in order. *)
Definition queries (t : list Effect) : list (Engine * string * JsObj) :=
  omap (λ x, match x with EQuery e k o => Some (e, k, o) | _ => None end) t.

(** The values thrown by the watcher on [error], in order. *)
Definition rethrown (t : list Effect) : list JsVal :=
  omap (λ x, match x with ERethrow v => Some v | _ => None end) t.

(** The calls of disposers, in order. *)
Definition disposals (t : list Effect) : list Effect :=
  omap (λ x, match x with
             | EUnsubscribe _ | ERemoveListener _ _ => Some x
             | _ => None
             end) t.

(** The keys that have live listeners in the engine, one entry per
    listener. *)
Definition liveKeys (w : World) : list string :=
  map sub_key (subscriptions w).

(** The five listeners one run of the watcher callback registers. *)
Definition subscribed (e : Engine) (s : string) (n : nat)
  : list Subscription :=
  [mkSub n e s Mutated; mkSub (1 + n) e s Refetching;
   mkSub (2 + n) e s Resolved; mkSub (3 + n) e s Error;
   mkSub (4 + n) e s Forgotten].

(** A world with [e] appended to its trace. *)
Definition emitted (e : Effect) (w : World) : World :=
  set_trace (trace w ++ [e]) w.
Arguments emitted _ _ /.

(** What a disposer may touch: the two registries and the trace, to
    which it adds no query. *)
Definition registries_only (w w' : World) : Prop :=
  key w' = key w ∧ resource w' = resource w ∧ error w' = error w ∧
  isRefetching w' = isRefetching w ∧ lastFocus w' = lastFocus w ∧
  stage w' = stage w ∧ errorSeen w' = errorSeen w ∧
  watcher w' = watcher w ∧ pending w' = pending w ∧
  clock w' = clock w ∧ fresh w' = fresh w ∧
  queries (trace w') = queries (trace w).

(** The watcher remembers the value it has run for. *)
Definition remember (k : KeyVal) (w : World) : World :=
  set_watcher
    (option_map (λ wt, mkWatcher (w_active wt) (Some k) (w_cleanup wt))
       (watcher w)) w.

(** The worlds a binder can be in: those the environment leads to from
    a call of [createTurboResource]. *)
Definition Reachable (options contextOptions : option JsObj) (window : bool)
    (w : World) : Prop :=
  ∃ key now inputs,
    w = run options contextOptions window inputs
          (create options contextOptions window key now).

(** While the watcher is active it has run for the current key, and
    when that key is active each of the five events of the key has a
    live listener in the resolved engine. *)
Definition Bound (options contextOptions : option JsObj) (w : World) : Prop :=
  ∀ wt, watcher w = Some wt → w_active wt = true →
    w_old wt = Some (computedKey (key w)) ∧
    ∀ s ev, active (computedKey (key w)) = Some s →
      ∃ id, mkSub id (facade options contextOptions) s ev ∈ subscriptions w.

(** Two worlds with the same key function, the same live listeners and a
    watcher in the same condition. *)
Definition same_binding (w w' : World) : Prop :=
  key w' = key w ∧ subscriptions w' = subscriptions w ∧
  option_map (λ wt, (w_active wt, w_old wt)) (watcher w') =
  option_map (λ wt, (w_active wt, w_old wt)) (watcher w).

(** The disposers of a cleanup closure, in the order it calls them. *)
Definition disposers (s : SubscriptionSet) : list Disposer :=
  [unsubscribeMutate s; unsubscribeRefetching s; unsubscribeResolved s;
   unsubscribeErrors s; unsubscribeForgotten s; unsubscribeFocusRefetch s;
   unsubscribeConnectRefetch s].

(** The effect of calling a disposer. *)
Definition disposal (d : Disposer) : list Effect :=
  match d with
  | DNoop => []
  | DUnsubscribe id => [EUnsubscribe id]
  | DRemoveListener ev id => [ERemoveListener ev id]
  end.

(** A settled world: no run of the watcher callback is suspended, the
    watcher is active, and every live listener, in the engine and on the
    window, is one that the cleanup in the slot disposes of. *)
Definition Settled (w : World) : Prop :=
  pending w = [] ∧
  ∃ wt, watcher w = Some wt ∧ w_active wt = true ∧
    (∀ sub, sub ∈ subscriptions w →
       ∃ set, w_cleanup wt = Some set ∧
              DUnsubscribe (sub_id sub) ∈ disposers set) ∧
    (∀ l, l ∈ listeners w →
       ∃ set, w_cleanup wt = Some set ∧
              DRemoveListener l.1 l.2 ∈ disposers set).

(** ** Sample key functions *)

Definition keyA : TurboVueKey := λ _, Returns (KString "A").
Definition keyB : TurboVueKey := λ _, Returns (KString "B").
Definition keyAbsent : TurboVueKey := λ _, Returns KNull.
Definition keyThrowing : TurboVueKey := λ _, Throws (VStr "no id").

(** ** Sample worlds *)

(** A binder created for the key ["A"] with no options, in a host with a
    window, once its initial query has resolved: the watcher has run for
    ["A"] and its own query is awaited. *)
Definition awaitingA : World :=
  run None None true [InitialSettled (Returns (VNum 1))]
    (create None None true keyA 0).

(** The same binder once the query of the watcher has resolved too. *)
Definition settledA : World :=
  run None None true [QuerySettled 7 (Returns (VNum 1))] awaitingA.

(** A tracker created at time 0 with precision 100 for the key ["A"],
    which expires at time 1000. *)
Definition trackerA : Tracker := createStale 100 keyA {[ "A" := 1000 ]} 0.

(** ** Further notions used by the properties beyond the claims *)

(** An action keeps a property of the world. *)
Definition preserves {A} (P : World → Prop) (m : Act A) : Prop :=
  ∀ w, P w → P (m w).2.

(** Whether the trigger of a window event is enabled: the guards of
    [onFocus] and [onConnect]. *)
Definition enabled (options contextOptions : option JsObj) (window : bool)
    (ev : WindowEvent) : bool :=
  match ev with
  | Focus => refetchOnFocus options contextOptions && window
  | Online => refetchOnConnect options contextOptions && window
  end.

(** The listeners of the window for one event. *)
Definition hearing (ev : WindowEvent) (w : World) : list (WindowEvent * nat) :=
  filter (λ l, l.1 = ev) (listeners w).

(** The parked runs of the callback have distinct names, all below the
    counter of fresh names. *)
Definition parked_well (w : World) : Prop :=
  (∀ p s, (p, s) ∈ pending w → (p < fresh w)%nat) ∧ NoDup (pending w).*1.

(** A binder whose creation failed with [e]: nothing was installed, and
    the only effects are those in [t]. *)
Definition stillborn (e : JsVal) (t : list Effect) (w : World) : Prop :=
  stage w = Failed e ∧ watcher w = None ∧ pending w = [] ∧
  subscriptions w = [] ∧ listeners w = [] ∧
  resource w = VUndef ∧ error w = VUndef ∧ errorSeen w = VUndef ∧
  isRefetching w = false ∧ trace w = t.

(** A query addressed as the binder addresses its queries: to the
    resolved engine, for the active key that [fn] computes, with the
    options of the watcher or those of a refetch. *)
Definition addressed (options contextOptions : option JsObj)
    (fn : TurboVueKey) (q : Engine * string * JsObj) : Prop :=
  q.1.1 = facade options contextOptions ∧
  active (computedKey fn) = Some q.1.2 ∧
  (q.2 = queryOptions options ∨ ∃ ops, q.2 = refetchOptions options ops).

(** The queries of a world are those in [base] followed by queries
    addressed for the key function [fn], which is that of the world. *)
Definition queried_since (options contextOptions : option JsObj)
    (fn : TurboVueKey) (base : list (Engine * string * JsObj)) (w : World)
  : Prop :=
  key w = fn ∧
  ∃ qs, queries (trace w) = base ++ qs ∧
        ∀ q, q ∈ qs → addressed options contextOptions fn q.

(** The query that the watcher awaits, if any, resolves with [v]. *)
Definition resolveWatcher (options contextOptions : option JsObj)
    (window : bool) (v : JsVal) (w : World) : World :=
  match pending w with
  | (p, _) :: _ =>
      exec (step options contextOptions window (QuerySettled p (Returns v))) w
  | [] => w
  end.

(** The reactive state changes, and the query this may start resolves
    with [v] before anything else happens. *)
Definition changeAndResolve (options contextOptions : option JsObj)
    (window : bool) (c : TurboVueKey * JsVal) (w : World) : World :=
  resolveWatcher options contextOptions window c.2
    (exec (step options contextOptions window (DepsChanged c.1)) w).


(** A steady world: settled, bound to its current key, and listening to
    that key alone: the five listeners of one run of the callback and
    one window listener per enabled trigger when the key is active, no
    listener at all when it is absent. *)
Definition Steady (options contextOptions : option JsObj) (window : bool)
    (w : World) : Prop :=
  Settled w ∧ Bound options contextOptions w ∧
  match active (computedKey (key w)) with
  | Some k =>
      (∃ n, subscriptions w = subscribed (facade options contextOptions) k n) ∧
      ∀ ev, length (hearing ev w) =
            if enabled options contextOptions window ev then 1%nat else 0%nat
  | None => subscriptions w = [] ∧ listeners w = []
  end.

(** What the watcher and the timers of a tracker keep true: at most one
    timer, a countdown that is not negative, a watcher that has seen the
    current key, and timers of the precision asked for. *)
Definition tracker_ok (t : Tracker) : Prop :=
  one_timer t ∧ 0 ≤ staleIn t ∧
  (t_active t = true → t_old t = computedKey (t_key t)) ∧
  ∀ iv, iv ∈ t_intervals t → iv_precision iv = t_precision t.

(** ** The focus availability tracker [createFocusAvailable] *)

(** The number a subtraction of JS yields when its exact result is the
    integer [x]: the nearest double, a tie going to the even
    significand.  A double has 53 significant bits, so an integer below
    [2 ^ 53] in magnitude is kept as it is.  Magnitudes from [2 ^ 1024]
    on, where a double is [Infinity], are out of the reach of a finite
    interval and a Date, which stays within 8.64e15 of the epoch. *)
Definition nearest_double (x : Z) : Z :=
  let m := Z.abs x in
  let drop := Z.log2 m - 52 in
  if drop <=? 0 then x
  else
    let ulp := 2 ^ drop in
    let q := m / ulp in
    let r := m mod ulp in
    let q' := if 2 * r <? ulp then q
              else if ulp <? 2 * r then q + 1
              else if Z.even q then q else q + 1 in
    Z.sgn x * (q' * ulp).

(** The two cells handed to the caller, and whether the timer started by
    [setInterval] is still running. *)
Record Availability := mkAvailability {
  isAvailable : bool;
  availableIn : Z;
  a_running : bool;
  a_precision : Z
}.

Section FocusAvailable.

Variable options : option JsObj.
Variable contextOptions : option JsObj.

(** [createFocusAvailable(precision)], called in the world [w]. *)
Definition createFocusAvailable (precision : Z) (w : World) : Availability :=
  mkAvailability
    (clock w - lastFocus w >? focusInterval options contextOptions)
    (focusInterval options contextOptions) true precision.

(** The callback given to [setInterval].  The time elapsed is a
    difference of two Dates, taken as exact as in [rawHandler]; its
    subtraction from [focusInterval], which may be any number, yields
    the nearest double. *)
Definition availabilityPoll (w : World) (a : Availability) : Availability :=
  let last := lastFocus w in
  let now := clock w in
  let availability :=
    nearest_double (focusInterval options contextOptions - (now - last)) in
  let availableIn' :=
    if availability >=? 0 then availability
    else if (availability <? 0) && (availableIn a >? 0) then 0
    else availableIn a in
  mkAvailability (now - last >? focusInterval options contextOptions)
    availableIn' (a_running a) (a_precision a).

(** The runtime fires the timer, if it still runs. *)
Definition availabilityFires (w : World) (a : Availability) : Availability :=
  if a_running a then availabilityPoll w a else a.

(** [onUnmounted(function () { clearInterval(interval) })]. *)
Definition availabilityUnmounted (a : Availability) : Availability :=
  mkAvailability (isAvailable a) (availableIn a) false (a_precision a).

(** *** [expiration], the action of the binder *)

(** [localExpiration]: the expiration the resolved engine knows for the
    current key; [expirations] gives the table of each engine. *)
Definition localExpiration (expirations : Engine → gmap string Z) (w : World)
  : option Z :=
  match active (computedKey (key w)) with
  | None => None
  | Some s => expirations (facade options contextOptions) !! s
  end.

End FocusAvailable.

(** [createStale(precision)] as the binder offers it: on its own key
    function, at the present time, reading the module-level
    [expiration]. *)
Definition createStaleOf (expirations : Engine → gmap string Z)
    (precision : Z) (w : World) : Tracker :=
  createStale precision (key w) (expirations ModuleEngine) (clock w).

(** The settings of a binder, as resolved from the options at the call
    site and those of the context. *)
Definition settings (options contextOptions : option JsObj)
  : Engine * bool * bool * Z * bool :=
  (facade options contextOptions, refetchOnFocus options contextOptions,
   refetchOnConnect options contextOptions,
   focusInterval options contextOptions,
   clearOnForget options contextOptions).

(** The names of the options the binder reads. *)
Definition settingNames : list string :=
  ["turbo"; "refetchOnFocus"; "refetchOnConnect"; "focusInterval";
   "clearOnForget"].

(** A binder at its initial [await]: nothing is installed yet, no cell
    is written, and the effects so far are those of [t]. *)
Definition expecting (t : list Effect) (w : World) : Prop :=
  stage w = AwaitingInitial ∧ watcher w = None ∧ pending w = [] ∧
  subscriptions w = [] ∧ listeners w = [] ∧
  resource w = VUndef ∧ error w = VUndef ∧ errorSeen w = VUndef ∧
  isRefetching w = false ∧ trace w = t.

(** The key functions the reactive state moves to, in order. *)
Definition keyChanges (inputs : list Input) : list TurboVueKey :=
  omap (λ i, match i with DepsChanged fn => Some fn | _ => None end) inputs.

(** * Properties *)

Arguments queryOptions : simpl never.
Arguments refetchOptions : simpl never.
Arguments facade : simpl never.
Arguments focusInterval : simpl never.
Arguments clearOnForget : simpl never.
Arguments refetchOnFocus : simpl never.
Arguments refetchOnConnect : simpl never.
Arguments queries : simpl never.
Arguments rethrown : simpl never.
Arguments disposals : simpl never.

(** Unfold the plumbing of [Act]. *)
Ltac act :=
  unfold exec, mbind, Act_bind, mret, Act_ret, get, put, emit, gensym, skip;
  cbn.

Lemma exec_bind {A B} (m : Act A) (f : A → Act B) w :
  exec (m ≫= f) w = exec (f (m w).1) (m w).2.
Proof. unfold exec, mbind, Act_bind. destruct (m w); reflexivity. Qed.

Lemma exec_seq (m : Act unit) {B} (k : Act B) w :
  exec (m;; k) w = exec k (exec m w).
Proof. rewrite exec_bind. reflexivity. Qed.

Lemma queries_app t u : queries (t ++ u) = queries t ++ queries u.
Proof. apply omap_app. Qed.

Lemma queries_snoc t e k o :
  queries (t ++ [EQuery e k o]) = queries t ++ [(e, k, o)].
Proof. rewrite queries_app. reflexivity. Qed.

Lemma rethrown_app t u : rethrown (t ++ u) = rethrown t ++ rethrown u.
Proof. apply omap_app. Qed.

Section BinderFacts.
Variables opts ctx : option JsObj.
Variable win : bool.

(** *** Creation and the watcher's job *)

Lemma registries_only_refl w : registries_only w w.
Proof. repeat split. Qed.

Lemma registries_only_trans w1 w2 w3 :
  registries_only w1 w2 → registries_only w2 w3 → registries_only w1 w3.
Proof. unfold registries_only. intuition congruence. Qed.

Lemma dispose_registries d w : registries_only w (exec (dispose d) w).
Proof.
  destruct d; unfold dispose; act; repeat split;
    try (cbn; rewrite queries_app; cbn; apply app_nil_r).
Qed.

Lemma cleanup_registries s w : registries_only w (exec (cleanup s) w).
Proof.
  unfold cleanup. rewrite !exec_seq.
  repeat (eapply registries_only_trans; [| apply dispose_registries]).
  apply registries_only_refl.
Qed.

Lemma slot_registries o w :
  registries_only w (exec (from_option cleanup skip o) w).
Proof.
  destruct o; [apply cleanup_registries | apply registries_only_refl].
Qed.

Lemma job_unfold w :
  exec (job opts ctx win) w =
  match watcher w with
  | Some wt =>
      if w_active wt && bool_decide (w_old wt ≠ Some (computedKey (key w)))
      then remember (computedKey (key w))
             (exec (watchCallback opts ctx win (computedKey (key w)))
                (exec (from_option cleanup skip (w_cleanup wt)) w))
      else w
  | None => w
  end.
Proof.
  unfold job. rewrite exec_bind. unfold get at 1 2. cbn [fst snd].
  destruct (watcher w) as [wt|]; [|reflexivity].
  destruct (w_active wt); [|reflexivity]. cbn [andb].
  rewrite exec_bind. unfold currentKey at 1 2, get. cbn [fst snd].
  destruct (bool_decide (w_old wt ≠ Some (computedKey (key w))));
    [|reflexivity].
  rewrite !exec_seq. reflexivity.
Qed.

Lemma watchCallback_absent k w :
  active k = None →
  exec (watchCallback opts ctx win k) w = set_isRefetching false w.
Proof. intros H. unfold watchCallback. rewrite H. reflexivity. Qed.

(** What one run of the callback does for an active key, up to its
    [await]. *)
Lemma watchCallback_active k s w :
  active k = Some s →
  let w' := exec (watchCallback opts ctx win k) w in
  subscriptions w' = subscriptions w ++ subscribed (facade opts ctx) s (fresh w) ∧
  isRefetching w' = false ∧
  key w' = key w ∧ resource w' = resource w ∧ error w' = error w ∧
  lastFocus w' = lastFocus w ∧ stage w' = stage w ∧
  errorSeen w' = errorSeen w ∧ watcher w' = watcher w ∧
  clock w' = clock w ∧
  queries (trace w') =
    queries (trace w) ++ [(facade opts ctx, s, queryOptions opts)] ∧
  disposals (trace w') = disposals (trace w) ∧
  ∃ p f c,
    pending w' =
      pending w ++
      [(p, mkSet (DUnsubscribe (fresh w)) (DUnsubscribe (1 + fresh w))
             (DUnsubscribe (2 + fresh w)) (DUnsubscribe (3 + fresh w))
             (DUnsubscribe (4 + fresh w)) f c)].
Proof.
  intros H. unfold watchCallback. rewrite H.
  unfold turboSubscribe, onFocus, onConnect, addEventListener, turboQuery,
    suspend.
  destruct (refetchOnFocus opts ctx && win);
    destruct (refetchOnConnect opts ctx && win);
    act; rewrite <- ?app_assoc; cbn;
    (repeat split; [ unfold queries; rewrite omap_app; reflexivity
                   | unfold disposals; rewrite omap_app; cbn; apply app_nil_r
                   | eauto ]).
Qed.

Lemma rest_unfold w :
  exec (createTurboResource_rest opts ctx win) w =
  set_stage Running
    (exec (job opts ctx win)
       (set_watcher (Some (mkWatcher true None None))
          (set_lastFocus (clock w) w))).
Proof.
  unfold createTurboResource_rest. rewrite exec_bind. unfold get.
  cbn [fst snd]. rewrite !exec_seq. reflexivity.
Qed.

Lemma create_absent fn now :
  active (computedKey fn) = None →
  create opts ctx win fn now =
  set_stage Running
    (set_watcher (Some (mkWatcher true (Some (computedKey fn)) None))
       (boot fn now)).
Proof.
  intros H. unfold create, createTurboResource. rewrite exec_bind.
  unfold currentKey at 1 2, get. cbn [fst snd]. cbn [key boot]. rewrite H.
  rewrite rest_unfold, job_unfold. cbn.
  rewrite bool_decide_true by discriminate.
  rewrite watchCallback_absent by exact H. reflexivity.
Qed.

Lemma create_active fn now s :
  active (computedKey fn) = Some s →
  create opts ctx win fn now =
  set_stage AwaitingInitial
    (emitted (EQuery (facade opts ctx) s (queryOptions opts)) (boot fn now)).
Proof.
  intros H. unfold create, createTurboResource. rewrite exec_bind.
  unfold currentKey at 1 2, get. cbn [fst snd]. cbn [key boot]. rewrite H.
  reflexivity.
Qed.

Lemma settle_only p s r w :
  pending w = [(p, s)] →
  exec (settle p r) w =
  exec (watchCallback_resume s r) (set_pending [] w).
Proof.
  intros H. unfold settle. rewrite exec_bind. unfold get at 1 2.
  cbn [fst snd]. rewrite H. cbn.
  rewrite decide_True by reflexivity. cbn.
  rewrite exec_seq. unfold put at 1, exec at 2. cbn [snd].
  rewrite decide_False by (intros E; apply E; reflexivity). reflexivity.
Qed.

Lemma step_initial_resolved w v :
  stage w = AwaitingInitial →
  exec (step opts ctx win (InitialSettled (Returns v))) w =
  set_stage Running
    (exec (job opts ctx win)
       (set_watcher (Some (mkWatcher true None None))
          (set_lastFocus (clock w) (set_resource v w)))).
Proof.
  intros H. unfold step. rewrite exec_bind. unfold get at 1 2.
  cbn [fst snd]. rewrite H. unfold createTurboResource_resume.
  rewrite exec_seq, rest_unfold. reflexivity.
Qed.

Lemma job_first w :
  watcher w = Some (mkWatcher true None None) →
  exec (job opts ctx win) w =
  remember (computedKey (key w))
    (exec (watchCallback opts ctx win (computedKey (key w))) w).
Proof.
  intros H. rewrite job_unfold, H. cbn [w_active w_old w_cleanup andb].
  rewrite bool_decide_true by discriminate. reflexivity.
Qed.

(** C3.  A key function that throws yields the absent key [null]; the
    call of [createTurboResource] returns the binder (its promise does
    not reject) without any effect, so without a query; and when the
    watcher re-evaluates such a key after a change, the stage of the
    binder is untouched and no query is issued. *)
Theorem C3_throwing_key_is_absent (fn : TurboVueKey) (e : JsVal) :
  fn () = Throws e →
  computedKey fn = KNull ∧
  (∀ now, stage (create opts ctx win fn now) = Running ∧
          trace (create opts ctx win fn now) = []) ∧
  (∀ w, let w' := exec (step opts ctx win (DepsChanged fn)) w in
        stage w' = stage w ∧ queries (trace w') = queries (trace w)).
Proof.
  intros H.
  assert (Hk : computedKey fn = KNull)
    by (unfold computedKey; rewrite H; reflexivity).
  split; [exact Hk|]. split.
  - intros now. rewrite create_absent by (rewrite Hk; reflexivity).
    split; reflexivity.
  - intros w. cbn zeta. unfold step. rewrite exec_seq, job_unfold.
    change (exec (put (set_key fn)) w) with (set_key fn w).
    change (watcher (set_key fn w)) with (watcher w).
    change (key (set_key fn w)) with fn.
    destruct (watcher w) as [wt|]; [|split; reflexivity].
    destruct (w_active wt && _); [|split; reflexivity].
    rewrite Hk. rewrite watchCallback_absent by reflexivity.
    pose proof (slot_registries (w_cleanup wt) (set_key fn w)) as R.
    unfold registries_only in R. cbn in R |- *. 
    split; [apply R|]. apply R.
Qed.

Lemma refetch_absent ops w :
  active (computedKey (key w)) = None →
  refetch opts ctx ops w = (Completed VUndef, w).
Proof.
  intros H. unfold refetch, currentKey, get, mbind, Act_bind.
  rewrite H. reflexivity.
Qed.

Lemma refetch_active ops w s :
  active (computedKey (key w)) = Some s →
  refetch opts ctx ops w =
  (AwaitsQuery,
   emitted (EQuery (facade opts ctx) s (refetchOptions opts ops)) w).
Proof.
  intros H. unfold refetch, currentKey, get, mbind, Act_bind.
  rewrite H. reflexivity.
Qed.

(** C7.  With no active key, [refetch] returns [undefined] and the
    world, trace included, is the one before the call, and so it is for
    [mutate], [forget] and [abort]; with an active key each of the four
    makes exactly one call, to the resolved primitive of the engine, for
    the current key. *)
Theorem C7_actions_need_a_key (w : World) :
  (active (computedKey (key w)) = None →
   ∀ ops item reason answer,
     refetch opts ctx ops w = (Completed VUndef, w) ∧
     refetch_value (refetch opts ctx ops w).1 answer = VUndef ∧
     exec (localMutate opts ctx item) w = w ∧
     exec (localForget opts ctx) w = w ∧
     exec (localAbort opts ctx reason) w = w) ∧
  (∀ s, active (computedKey (key w)) = Some s →
   ∀ ops item reason,
     refetch opts ctx ops w =
       (AwaitsQuery,
        emitted (EQuery (facade opts ctx) s (refetchOptions opts ops)) w) ∧
     exec (localMutate opts ctx item) w =
       emitted (EMutate (facade opts ctx) s item) w ∧
     exec (localForget opts ctx) w = emitted (EForget (facade opts ctx) s) w ∧
     exec (localAbort opts ctx reason) w =
       emitted (EAbort (facade opts ctx) s reason) w).
Proof.
  split.
  - intros H ops item reason answer.
    rewrite refetch_absent by exact H.
    unfold localMutate, localForget, localAbort, currentKey, get, exec,
      mbind, Act_bind.
    rewrite H. repeat split.
  - intros s H ops item reason.
    rewrite (refetch_active _ _ _ H).
    unfold localMutate, localForget, localAbort, currentKey, get, exec,
      mbind, Act_bind.
    rewrite H. repeat split.
Qed.

Lemma refetchOptions_lookup ops f :
  refetchOptions opts ops !! f =
  match props ops !! f with
  | Some v => Some v
  | None =>
      match props opts !! f with
      | Some v => Some v
      | None => ({[ "stale" := VBool false ]} : JsObj) !! f
      end
  end.
Proof.
  unfold refetchOptions, spread.
  rewrite !lookup_union. 
  destruct (props ops !! f), (props opts !! f),
    (({[ "stale" := VBool false ]} : JsObj) !! f); reflexivity.
Qed.

Lemma queryOptions_lookup f :
  queryOptions opts !! f =
  match props opts !! f with
  | Some v => Some v
  | None => ({[ "stale" := VBool true ]} : JsObj) !! f
  end.
Proof.
  unfold queryOptions, spread. rewrite lookup_union.
  destruct (props opts !! f), (({[ "stale" := VBool true ]} : JsObj) !! f);
    reflexivity.
Qed.

(** C9, as the code has it.  With an active key, [refetch(ops)] issues
    one query to the resolved engine for the current key and returns
    the value it resolves with; its options are [stale: false]
    overridden by the options of the binder, overridden in turn by
    [ops].  So the query is non-stale when neither the binder's options
    nor [ops] carry a [stale] property. *)
Theorem C9_refetch_merges_options (w : World) (s : string)
    (ops : option JsObj) :
  active (computedKey (key w)) = Some s →
  refetch opts ctx ops w =
    (AwaitsQuery,
     emitted (EQuery (facade opts ctx) s (refetchOptions opts ops)) w) ∧
  (∀ answer, refetch_value (refetch opts ctx ops w).1 answer = answer) ∧
  (∀ f, refetchOptions opts ops !! f =
        match props ops !! f with
        | Some v => Some v
        | None =>
            match props opts !! f with
            | Some v => Some v
            | None => ({[ "stale" := VBool false ]} : JsObj) !! f
            end
        end) ∧
  (props ops !! "stale" = None → props opts !! "stale" = None →
   refetchOptions opts ops !! "stale" = Some (VBool false)).
Proof.
  intros H. rewrite (refetch_active _ _ _ H).
  split; [reflexivity|]. split; [reflexivity|].
  split; [apply refetchOptions_lookup|].
  intros H1 H2. rewrite refetchOptions_lookup, H1, H2. reflexivity.
Qed.

(** *** Dispatching *)

Lemma for_each_ext {A} (f g : A → Act unit) (l : list A) :
  (∀ x, x ∈ l → f x = g x) → for_each f l = for_each g l.
Proof.
  induction l as [|x l IH]; intros H; [reflexivity|].
  cbn. rewrite (H x) by (left). rewrite IH; [reflexivity|].
  intros y Hy. apply H. right. exact Hy.
Qed.

Lemma for_each_cons {A} (f : A → Act unit) x l w :
  exec (for_each f (x :: l)) w = exec (for_each f l) (exec (f x) w).
Proof. cbn [for_each]. apply exec_seq. Qed.

Lemma for_each_idem {A} (m : Act unit) (l : list A) w :
  (∀ w, exec m (exec m w) = exec m w) →
  exec (for_each (λ _, m) l) w = match l with [] => w | _ => exec m w end.
Proof.
  intros Hm. revert w. induction l as [|x l IH]; intros w; [reflexivity|].
  rewrite for_each_cons, IH. destruct l; [reflexivity|apply Hm].
Qed.

Lemma onEvent_idem ev payload w :
  exec (onEvent opts ctx ev payload) (exec (onEvent opts ctx ev payload) w) =
  exec (onEvent opts ctx ev payload) w.
Proof.
  destruct ev; cbn; try reflexivity.
  destruct (clearOnForget opts ctx); reflexivity.
Qed.

(** An event reaches the callback of its kind when some listener is
    registered for it, and nothing otherwise; several listeners for the
    same event run the same callback, which changes nothing more. *)
Lemma dispatch_spec e k ev payload w :
  exec (dispatch opts ctx e k ev payload) w =
  match listening e k ev (subscriptions w) with
  | [] => w
  | _ => exec (onEvent opts ctx ev payload) w
  end.
Proof.
  unfold dispatch. rewrite exec_bind. unfold get at 1 2. cbn [fst snd].
  rewrite (for_each_ext _ (λ _, onEvent opts ctx ev payload)).
  - apply for_each_idem. intros w'. apply onEvent_idem.
  - intros x Hx. unfold listening in Hx.
    apply list_elem_of_filter in Hx as [(_ & _ & ->) _]. reflexivity.
Qed.

Lemma listening_nonempty e k ev subs id :
  mkSub id e k ev ∈ subs → listening e k ev subs ≠ [].
Proof.
  intros H E.
  assert (mkSub id e k ev ∈ listening e k ev subs) as Hin.
  { unfold listening. apply list_elem_of_filter. split; [|exact H].
    repeat split. }
  rewrite E in Hin. inversion Hin.
Qed.

Lemma dispatch_heard e k ev payload w id :
  mkSub id e k ev ∈ subscriptions w →
  exec (dispatch opts ctx e k ev payload) w =
  exec (onEvent opts ctx ev payload) w.
Proof.
  intros H. rewrite dispatch_spec.
  pose proof (listening_nonempty _ _ _ _ _ H).
  destruct (listening e k ev (subscriptions w)); [congruence|reflexivity].
Qed.

(** *** The error slot *)

Lemma errorJob_spec w :
  exec errorJob w =
  if hasChanged (error w) (errorSeen w) then
    set_errorSeen (error w)
      (if bool_decide (error w ≠ VUndef) then emitted (ERethrow (error w)) w
       else w)
  else w.
Proof.
  unfold errorJob. rewrite !exec_bind. unfold get. cbn [fst snd].
  destruct (hasChanged (error w) (errorSeen w)); [|reflexivity].
  rewrite exec_seq. destruct (bool_decide (error w ≠ VUndef)); reflexivity.
Qed.

(** *** The focus trigger *)

Lemma rawHandler_spec listener w :
  exec (rawHandler opts ctx listener) w =
  if (clock w - lastFocus w >? focusInterval opts ctx)%Z
  then exec listener (set_lastFocus (clock w) w)
  else w.
Proof.
  unfold rawHandler. rewrite !exec_bind. unfold get. cbn [fst snd].
  destruct (clock w - lastFocus w >? focusInterval opts ctx)%Z;
    [|reflexivity].
  rewrite exec_bind. cbn [fst snd]. rewrite exec_seq. reflexivity.
Qed.

Lemma refetchListener_spec w :
  exec (refetchListener opts ctx) w =
  match active (computedKey (key w)) with
  | Some s =>
      emitted (EQuery (facade opts ctx) s (refetchOptions opts None)) w
  | None => w
  end.
Proof.
  unfold refetchListener. rewrite exec_bind.
  destruct (active (computedKey (key w))) as [s|] eqn:H.
  - rewrite (refetch_active _ _ _ H). reflexivity.
  - rewrite (refetch_absent _ _ H). reflexivity.
Qed.

(** Within the interval every raw handler swallows the event. *)
Lemma handlers_throttled {A} (l : list A) w :
  clock w - lastFocus w ≤ focusInterval opts ctx →
  exec (for_each (λ _, rawHandler opts ctx (refetchListener opts ctx)) l) w
  = w.
Proof.
  intros H. induction l as [|x l IH]; [reflexivity|].
  rewrite for_each_cons, rawHandler_spec.
  destruct (Z.gtb_spec (clock w - lastFocus w) (focusInterval opts ctx));
    [lia|exact IH].
Qed.

Lemma fire_focus_throttled w :
  clock w - lastFocus w ≤ focusInterval opts ctx →
  exec (fire opts ctx Focus) w = w.
Proof.
  intros H. unfold fire. rewrite exec_bind. unfold get. cbn [fst snd].
  apply handlers_throttled. exact H.
Qed.

(** One focus event: either nothing happens, or [lastFocus] becomes the
    present and at most one query is issued. *)
Lemma fire_focus_once w :
  0 ≤ focusInterval opts ctx →
  let w' := exec (fire opts ctx Focus) w in
  clock w' = clock w ∧
  (w' = w ∨
   (lastFocus w' = clock w ∧
    (length (queries (trace w')) ≤ 1 + length (queries (trace w)))%nat)).
Proof.
  intros Hfi. cbn zeta. unfold fire. rewrite exec_bind. unfold get.
  cbn [fst snd].
  destruct (filter (λ l, l.1 = Focus) (listeners w)) as [|x l];
    [split; [reflexivity|left; reflexivity]|].
  rewrite for_each_cons, rawHandler_spec.
  destruct (Z.gtb_spec (clock w - lastFocus w) (focusInterval opts ctx)).
  - rewrite refetchListener_spec. cbn [key set_lastFocus].
    destruct (active (computedKey (key w))) as [s|].
    + rewrite handlers_throttled by (cbn; lia). split; [reflexivity|].
      right. split; [reflexivity|]. cbn. rewrite queries_snoc, length_app.
      cbn. lia.
    + rewrite handlers_throttled by (cbn; lia). split; [reflexivity|].
      right. split; [reflexivity|]. cbn. lia.
  - rewrite handlers_throttled by lia. split; [reflexivity|left; reflexivity].
Qed.

(** C5.  The throttle interval defaults to 5000 ms.  A raw focus
    handler calls its listener only when the time since [lastFocus]
    strictly exceeds the interval, and only then moves [lastFocus] to
    the present; otherwise it leaves the world as it is.  Two focus
    events separated by no more than the interval issue at most one
    refetch query between them, whatever listeners are registered. *)
Theorem C5_focus_throttle :
  focusInterval None None = 5000 ∧
  (∀ w listener,
     exec (rawHandler opts ctx listener) w =
     if (clock w - lastFocus w >? focusInterval opts ctx)%Z
     then exec listener (set_lastFocus (clock w) w)
     else w) ∧
  (∀ w (dt : N),
     Z.of_N dt ≤ focusInterval opts ctx →
     (length (queries (trace
        (run opts ctx win [WindowFires Focus; Elapse dt; WindowFires Focus] w)))
      ≤ 1 + length (queries (trace w)))%nat).
Proof.
  split; [reflexivity|]. split; [intros; apply rawHandler_spec|].
  intros w dt Hdt. unfold run. cbn [fold_left]. unfold step.
  assert (Hfi : 0 ≤ focusInterval opts ctx) by lia.
  destruct (fire_focus_once w Hfi) as [Hc [E|[Hl Hq]]].
  - rewrite E.
    change (exec (put (λ w0, set_clock (clock w0 + Z.of_N dt) w0)) w)
      with (set_clock (clock w + Z.of_N dt) w).
    destruct (fire_focus_once (set_clock (clock w + Z.of_N dt) w) Hfi)
      as [_ [E'|[_ Hq']]].
    + rewrite E'. cbn. lia.
    + exact Hq'.
  - set (w1 := exec (fire opts ctx Focus) w) in *.
    change (exec (put (λ w0, set_clock (clock w0 + Z.of_N dt) w0)) w1)
      with (set_clock (clock w1 + Z.of_N dt) w1).
    rewrite fire_focus_throttled by (cbn; lia). exact Hq.
Qed.

(** *** The current key stays subscribed *)

Lemma same_binding_refl w : same_binding w w.
Proof. repeat split. Qed.

Lemma same_binding_trans w1 w2 w3 :
  same_binding w1 w2 → same_binding w2 w3 → same_binding w1 w3.
Proof. unfold same_binding. intuition congruence. Qed.

Lemma Bound_same_binding w w' :
  Bound opts ctx w → same_binding w w' → Bound opts ctx w'.
Proof.
  intros B (Hk & Hs & Hw) wt' Hwt' Ha'.
  rewrite Hwt' in Hw. destruct (watcher w) as [wt|] eqn:Hwt; [|discriminate].
  cbn in Hw. injection Hw as Ea Eo.
  destruct (B wt Hwt) as [Ho Hsub]; [congruence|].
  rewrite Hk, Hs. split; [congruence|exact Hsub].
Qed.

Lemma for_each_same_binding {A} (f : A → Act unit) l w :
  (∀ x w, same_binding w (exec (f x) w)) →
  same_binding w (exec (for_each f l) w).
Proof.
  intros H. revert w. induction l as [|x l IH]; intros w.
  - apply same_binding_refl.
  - rewrite for_each_cons. eapply same_binding_trans; [apply H|apply IH].
Qed.

Lemma onEvent_same_binding ev payload w :
  same_binding w (exec (onEvent opts ctx ev payload) w).
Proof.
  destruct ev; cbn; try destruct (clearOnForget opts ctx); repeat split.
Qed.

Lemma refetchListener_same_binding w :
  same_binding w (exec (refetchListener opts ctx) w).
Proof.
  rewrite refetchListener_spec.
  destruct (active (computedKey (key w))); repeat split.
Qed.

Lemma rawHandler_same_binding w :
  same_binding w (exec (rawHandler opts ctx (refetchListener opts ctx)) w).
Proof.
  rewrite rawHandler_spec. destruct (_ >? _)%Z; [|apply same_binding_refl].
  eapply same_binding_trans; [|apply refetchListener_same_binding].
  repeat split.
Qed.

Lemma settle_spec p r w :
  exec (settle p r) w =
  match list_find (λ e, e.1 = p) (pending w) with
  | Some (_, (_, s)) =>
      exec (watchCallback_resume s r)
        (set_pending (filter (λ e, e.1 ≠ p) (pending w)) w)
  | None => w
  end.
Proof.
  unfold settle. rewrite exec_bind. unfold get. cbn [fst snd].
  destruct (list_find _ (pending w)) as [[? [? s]]|]; [|reflexivity].
  rewrite exec_seq. reflexivity.
Qed.

Lemma settle_same_binding p r w : same_binding w (exec (settle p r) w).
Proof.
  rewrite settle_spec.
  destruct (list_find _ (pending w)) as [[? [? s]]|];
    [|apply same_binding_refl].
  destruct r; cbn; repeat split.
  destruct (watcher w); reflexivity.
Qed.

Lemma whenRunning_spec m w :
  exec (whenRunning m) w =
  match stage w with Running => exec m w | _ => w end.
Proof.
  unfold whenRunning. rewrite exec_bind. unfold get. cbn [fst snd].
  destruct (stage w); reflexivity.
Qed.

Lemma unsubscribe_spec w :
  exec unsubscribe w =
  match watcher w with
  | Some wt =>
      if w_active wt then
        set_watcher (Some (mkWatcher false (w_old wt) (w_cleanup wt)))
          (exec (from_option cleanup skip (w_cleanup wt)) w)
      else w
  | None => w
  end.
Proof.
  unfold unsubscribe. rewrite exec_bind. unfold get. cbn [fst snd].
  destruct (watcher w) as [wt|]; [|reflexivity].
  destruct (w_active wt); [|reflexivity].
  rewrite exec_seq. reflexivity.
Qed.

(** After the callback has run for the key of the world, the binding
    holds. *)
Lemma Bound_after_callback w0 wt0 :
  watcher w0 = Some wt0 →
  Bound opts ctx
    (remember (computedKey (key w0))
       (exec (watchCallback opts ctx win (computedKey (key w0))) w0)).
Proof.
  intros Hw0. set (k := computedKey (key w0)).
  destruct (active k) as [s|] eqn:Hk.
  - destruct (watchCallback_active k s w0 Hk)
      as (Hsub & _ & Hkey & _ & _ & _ & _ & _ & Hw & _).
    set (wc := exec (watchCallback opts ctx win k) w0) in *.
    intros wt Hwt Ha. cbn in Hwt. rewrite Hw, Hw0 in Hwt. cbn in Hwt.
    injection Hwt as <-. cbn [w_old key remember set_watcher].
    rewrite Hkey. split; [reflexivity|].
    fold k. rewrite Hk. intros s' ev [= <-].
    change (subscriptions (remember k wc)) with (subscriptions wc).
    rewrite Hsub. unfold subscribed.
    destruct ev; eexists; apply elem_of_app; right;
      repeat first [apply list_elem_of_here | apply list_elem_of_further].
  - rewrite (watchCallback_absent _ _ Hk).
    intros wt Hwt Ha. cbn in Hwt. rewrite Hw0 in Hwt. cbn in Hwt.
    injection Hwt as <-. cbn [w_old key remember set_watcher set_isRefetching].
    fold k. split; [reflexivity|]. rewrite Hk. discriminate.
Qed.

(** A change of the reactive state that leaves the computed key as the
    watcher saw it last changes nothing but the key function. *)
Lemma Bound_step_deps fn w :
  Bound opts ctx w → Bound opts ctx (exec (step opts ctx win (DepsChanged fn)) w).
Proof.
  intros B. unfold step. rewrite exec_seq.
  change (exec (put (set_key fn)) w) with (set_key fn w).
  rewrite job_unfold. change (watcher (set_key fn w)) with (watcher w).
  change (key (set_key fn w)) with fn.
  destruct (watcher w) as [wt|] eqn:Hw.
  - destruct (w_active wt) eqn:Ha; cbn [andb].
    + case_bool_decide as Hc.
      * pose proof (slot_registries (w_cleanup wt) (set_key fn w)) as R.
        set (w0 := exec (from_option cleanup skip (w_cleanup wt))
                     (set_key fn w)) in *.
        destruct R as (Hk & _ & _ & _ & _ & _ & _ & Hwt & _).
        change fn with (key (set_key fn w)). rewrite <- Hk.
        apply (Bound_after_callback w0 wt).
        rewrite Hwt. exact Hw.
      * destruct (B wt Hw Ha) as [Ho Hs].
        assert (Ek : computedKey fn = computedKey (key w)) by congruence.
        intros wt' Hwt' Ha'. cbn in Hwt'. rewrite Hw in Hwt'.
        injection Hwt' as <-. cbn [key set_key subscriptions].
        rewrite Ek. split; [exact Ho|exact Hs].
    + intros wt' Hwt' Ha'. cbn in Hwt'. congruence.
  - intros wt' Hwt' Ha'. cbn in Hwt'. congruence.
Qed.

Lemma Bound_step i w :
  Bound opts ctx w → Bound opts ctx (exec (step opts ctx win i) w).
Proof.
  intros B. destruct i.
  - (* InitialSettled *)
    unfold step. rewrite exec_bind. unfold get. cbn [fst snd].
    destruct (stage w); try exact B.
    destruct r as [v|e].
    + unfold createTurboResource_resume. rewrite exec_seq, rest_unfold.
      rewrite job_first by reflexivity.
      eapply Bound_same_binding; [|split; [|split]; reflexivity].
      eapply Bound_after_callback. reflexivity.
    + eapply Bound_same_binding; [exact B|repeat split].
  - apply Bound_step_deps. exact B.
  - eapply Bound_same_binding; [exact B|apply settle_same_binding].
  - eapply Bound_same_binding; [exact B|]. cbn [step].
    rewrite dispatch_spec. destruct (listening _ _ _ _);
      [apply same_binding_refl|apply onEvent_same_binding].
  - eapply Bound_same_binding; [exact B|]. unfold step, fire.
    rewrite exec_bind. unfold get. cbn [fst snd].
    apply for_each_same_binding. intros _ w'. destruct ev.
    + apply rawHandler_same_binding.
    + apply refetchListener_same_binding.
  - eapply Bound_same_binding; [exact B|repeat split].
  - eapply Bound_same_binding; [exact B|]. cbn [step]. rewrite errorJob_spec.
    destruct (hasChanged _ _); [|apply same_binding_refl].
    destruct (bool_decide _); repeat split.
  - eapply Bound_same_binding; [exact B|]. cbn [step].
    rewrite whenRunning_spec. destruct (stage w); try apply same_binding_refl.
    rewrite exec_bind.
    destruct (active (computedKey (key w))) as [s|] eqn:H.
    + rewrite (refetch_active _ _ _ H). repeat split.
    + rewrite (refetch_absent _ _ H). repeat split.
  - eapply Bound_same_binding; [exact B|]. cbn [step].
    rewrite whenRunning_spec. destruct (stage w); try apply same_binding_refl.
    unfold localMutate, currentKey, get, exec, mbind, Act_bind.
    destruct (active (computedKey (key w))); repeat split.
  - eapply Bound_same_binding; [exact B|]. cbn [step].
    rewrite whenRunning_spec. destruct (stage w); try apply same_binding_refl.
    unfold localForget, currentKey, get, exec, mbind, Act_bind.
    destruct (active (computedKey (key w))); repeat split.
  - eapply Bound_same_binding; [exact B|]. cbn [step].
    rewrite whenRunning_spec. destruct (stage w); try apply same_binding_refl.
    unfold localAbort, currentKey, get, exec, mbind, Act_bind.
    destruct (active (computedKey (key w))); repeat split.
  - cbn [step]. rewrite whenRunning_spec. destruct (stage w); try exact B.
    rewrite unsubscribe_spec.
    destruct (watcher w) as [wt|]; [|exact B].
    destruct (w_active wt); [|exact B].
    intros wt' Hwt' Ha'. cbn in Hwt'. injection Hwt' as <-. discriminate.
Qed.

Lemma Bound_run inputs w :
  Bound opts ctx w → Bound opts ctx (run opts ctx win inputs w).
Proof.
  revert w. induction inputs as [|i inputs IH]; intros w B; [exact B|].
  cbn [run fold_left]. apply IH, Bound_step, B.
Qed.

Lemma Bound_create fn now : Bound opts ctx (create opts ctx win fn now).
Proof.
  destruct (active (computedKey fn)) as [s|] eqn:H.
  - rewrite (create_active _ _ _ H). intros wt Hwt. discriminate.
  - rewrite (create_absent _ _ H). intros wt Hwt Ha. cbn in Hwt.
    injection Hwt as <-. cbn. split; [reflexivity|].
    rewrite H. discriminate.
Qed.

(** In every world the binder can reach, while its watcher is active and
    the current key is active, each of the five events of that key has a
    live listener. *)
Lemma Reachable_Bound w : Reachable opts ctx win w → Bound opts ctx w.
Proof.
  intros (fn & now & inputs & ->). apply Bound_run, Bound_create.
Qed.

(** *** Key changes between settled worlds *)

Lemma dispose_subscriptions d w sub :
  sub ∈ subscriptions (exec (dispose d) w) ↔
  sub ∈ subscriptions w ∧ DUnsubscribe (sub_id sub) ≠ d.
Proof.
  destruct d as [|id|ev id]; unfold dispose; act.
  - split; [intros H; split; [exact H|discriminate]|tauto].
  - rewrite list_elem_of_filter. split; intros [H1 H2]; split; auto;
      congruence.
  - split; [intros H; split; [exact H|discriminate]|tauto].
Qed.

Lemma dispose_listeners d w l :
  l ∈ listeners (exec (dispose d) w) ↔
  l ∈ listeners w ∧ DRemoveListener l.1 l.2 ≠ d.
Proof.
  destruct d as [|id|ev id]; unfold dispose; act.
  - split; [intros H; split; [exact H|discriminate]|tauto].
  - split; [intros H; split; [exact H|discriminate]|tauto].
  - rewrite list_elem_of_filter. destruct l as [ev' id']. cbn.
    split; intros [H1 H2]; split; auto; congruence.
Qed.

Lemma dispose_trace d w :
  trace (exec (dispose d) w) = trace w ++ disposal d.
Proof.
  destruct d; unfold dispose; act; [rewrite app_nil_r|..]; reflexivity.
Qed.

Lemma disposals_disposal d : disposals (disposal d) = disposal d.
Proof. destruct d; reflexivity. Qed.

Lemma disposals_app t u : disposals (t ++ u) = disposals t ++ disposals u.
Proof. apply omap_app. Qed.

(** The cleanup closure removes the listeners it holds the disposers of,
    and no other; its effects are calls of disposers. *)
Lemma cleanup_spec s w :
  let w' := exec (cleanup s) w in
  (∀ sub, sub ∈ subscriptions w' ↔
          sub ∈ subscriptions w ∧ DUnsubscribe (sub_id sub) ∉ disposers s) ∧
  (∀ l, l ∈ listeners w' ↔
        l ∈ listeners w ∧ DRemoveListener l.1 l.2 ∉ disposers s) ∧
  ∃ d, trace w' = trace w ++ d ∧ disposals d = d.
Proof.
  cbn zeta. unfold cleanup, disposers. rewrite !exec_seq.
  split; [|split].
  - intros sub. rewrite !dispose_subscriptions, !not_elem_of_cons.
    pose proof (not_elem_of_nil (DUnsubscribe (sub_id sub))). tauto.
  - intros l. rewrite !dispose_listeners, !not_elem_of_cons.
    pose proof (not_elem_of_nil (DRemoveListener l.1 l.2)). tauto.
  - rewrite !dispose_trace, <- !app_assoc. eexists. split; [reflexivity|].
    rewrite !disposals_app, !disposals_disposal. reflexivity.
Qed.

Lemma nil_if_no_elem {A} (l : list A) : (∀ x, x ∉ l) → l = [].
Proof.
  destruct l as [|x l]; [reflexivity|]. intros H. destruct (H x). left.
Qed.

(** In a settled world the cleanup in the slot leaves no listener. *)
Lemma cleanup_settled w wt :
  Settled w → watcher w = Some wt →
  let w' := exec (from_option cleanup skip (w_cleanup wt)) w in
  subscriptions w' = [] ∧ listeners w' = [] ∧
  ∃ d, trace w' = trace w ++ d ∧ disposals d = d.
Proof.
  intros (Hp & wt' & Hw & Ha & Hs & Hl) Hwt. rewrite Hwt in Hw.
  injection Hw as <-. cbn zeta.
  destruct (w_cleanup wt) as [s|] eqn:Hc; cbn [from_option].
  - destruct (cleanup_spec s w) as (Cs & Cl & Ct). repeat split.
    + apply nil_if_no_elem. intros sub Hsub. apply Cs in Hsub as [H1 H2].
      destruct (Hs sub H1) as (s' & [= <-] & Hin). contradiction.
    + apply nil_if_no_elem. intros l Hin. apply Cl in Hin as [H1 H2].
      destruct (Hl l H1) as (s' & [= <-] & Hin). contradiction.
    + exact Ct.
  - repeat split.
    + apply nil_if_no_elem. intros sub Hsub.
      destruct (Hs sub Hsub) as (s' & [=] & _).
    + apply nil_if_no_elem. intros l Hin.
      destruct (Hl l Hin) as (s' & [=] & _).
    + exists []. split; [cbn; rewrite app_nil_r|]; reflexivity.
Qed.

(** The trace of one run of the callback, and the disposers it parks:
    they are those of the listeners it has added. *)
Lemma watchCallback_handles k s w :
  active k = Some s →
  let w' := exec (watchCallback opts ctx win k) w in
  (∃ t, trace w' = trace w ++ t ∧ disposals t = []) ∧
  ∃ p set,
    pending w' = pending w ++ [(p, set)] ∧
    (∀ sub, sub ∈ subscriptions w' →
       sub ∈ subscriptions w ∨ DUnsubscribe (sub_id sub) ∈ disposers set) ∧
    (∀ l, l ∈ listeners w' →
       l ∈ listeners w ∨ DRemoveListener l.1 l.2 ∈ disposers set).
Proof.
  intros H. unfold watchCallback. rewrite H.
  unfold turboSubscribe, onFocus, onConnect, addEventListener, turboQuery,
    suspend.
  destruct (refetchOnFocus opts ctx && win);
    destruct (refetchOnConnect opts ctx && win);
    act; rewrite <- ?app_assoc; cbn;
    (split; [eexists; split; [reflexivity|reflexivity]|]);
    eexists _, _; (split; [reflexivity|]); unfold disposers; cbn;
    (split; [intros sub | intros l]);
    rewrite ?elem_of_app, ?elem_of_cons, ?elem_of_nil;
    intros Hin; decompose [or] Hin; subst; cbn; tauto.
Qed.

Lemma Settled_resumed w p set v :
  pending w = [(p, set)] →
  (∃ wt, watcher w = Some wt ∧ w_active wt = true) →
  (∀ sub, sub ∈ subscriptions w → DUnsubscribe (sub_id sub) ∈ disposers set) →
  (∀ l, l ∈ listeners w → DRemoveListener l.1 l.2 ∈ disposers set) →
  Settled (exec (step opts ctx win (QuerySettled p (Returns v))) w).
Proof.
  intros Hp (wt & Hw & Ha) Hs Hl. unfold step.
  rewrite (settle_only _ _ _ _ Hp). cbn. rewrite Hw. cbn.
  split; [reflexivity|]. eexists. split; [reflexivity|]. cbn.
  split; [exact Ha|]. split.
  - intros sub Hsub. exists set. split; [reflexivity|apply Hs, Hsub].
  - intros l Hin. exists set. split; [reflexivity|apply Hl, Hin].
Qed.

(** A key change in a settled world.  The effects are first calls of
    disposers, then the effects of the callback, among which there is no
    call of a disposer; the flag is false; no listener of the key that
    was left remains: for an absent key there is none at all and the
    world is settled, for an active key the live listeners are the five
    the callback has just registered, and the world is settled again
    once the query of the callback has resolved. *)
Lemma settled_key_change fn w wt :
  Settled w → watcher w = Some wt → w_old wt ≠ Some (computedKey fn) →
  let w1 := exec (step opts ctx win (DepsChanged fn)) w in
  (∃ d s, trace w1 = trace w ++ d ++ s ∧ disposals d = d ∧ disposals s = []) ∧
  isRefetching w1 = false ∧
  match active (computedKey fn) with
  | None => subscriptions w1 = [] ∧ listeners w1 = [] ∧ Settled w1
  | Some k =>
      subscriptions w1 = subscribed (facade opts ctx) k (fresh w) ∧
      ∃ p set,
        pending w1 = [(p, set)] ∧
        ∀ v, Settled (exec (step opts ctx win (QuerySettled p (Returns v))) w1)
  end.
Proof.
  intros HS Hw Hc. cbn zeta.
  assert (Ha : w_active wt = true).
  { destruct HS as (_ & wt' & Hw' & Ha & _). congruence. }
  assert (Hp : pending w = []) by apply HS.
  assert (HS' : Settled (set_key fn w)) by exact HS.
  assert (Hw' : watcher (set_key fn w) = Some wt) by exact Hw.
  destruct (cleanup_settled _ _ HS' Hw') as (Hs0 & Hl0 & d & Ht0 & Hd).
  pose proof (slot_registries (w_cleanup wt) (set_key fn w)) as R.
  unfold step. rewrite exec_seq.
  change (exec (put (set_key fn)) w) with (set_key fn w).
  rewrite job_unfold, Hw', Ha. cbn [andb].
  change (key (set_key fn w)) with fn.
  rewrite bool_decide_true by exact Hc.
  set (w0 := exec (from_option cleanup skip (w_cleanup wt)) (set_key fn w))
    in *.
  destruct R as (Rk & _ & _ & _ & _ & _ & _ & Rw & Rp & _ & Rf & _).
  cbn in Rw, Rp, Rf, Ht0.
  destruct (active (computedKey fn)) as [k|] eqn:Hk.
  - destruct (watchCallback_active _ _ w0 Hk)
      as (Hsub & Hre & _ & _ & _ & _ & _ & _ & Hwc & _).
    destruct (watchCallback_handles _ _ w0 Hk)
      as ((t & Ht & Hnd) & p & set & Hpc & Hcs & Hcl).
    set (wc := exec (watchCallback opts ctx win (computedKey fn)) w0) in *.
    split; [|split; [exact Hre|split]].
    + exists d, t. change (trace (remember (computedKey fn) wc))
        with (trace wc). rewrite Ht, Ht0, app_assoc. auto.
    + change (subscriptions (remember (computedKey fn) wc))
        with (subscriptions wc). rewrite Hsub, Hs0, Rf. reflexivity.
    + exists p, set. rewrite Rp, Hp in Hpc. split; [exact Hpc|].
      intros v. apply Settled_resumed with (set := set).
      * exact Hpc.
      * cbn. rewrite Hwc, Rw, Hw. cbn. eexists. split; [reflexivity|exact Ha].
      * intros sub Hin. apply Hcs in Hin as [Hin|Hin]; [|exact Hin].
        rewrite Hs0 in Hin. inversion Hin.
      * intros l Hin. apply Hcl in Hin as [Hin|Hin]; [|exact Hin].
        rewrite Hl0 in Hin. inversion Hin.
  - rewrite (watchCallback_absent _ _ Hk).
    split; [|split; [reflexivity|split; [exact Hs0|split; [exact Hl0|]]]].
    + exists d, []. cbn. rewrite app_nil_r. auto.
    + split; [cbn; congruence|]. cbn. rewrite Rw, Hw. cbn.
      eexists. split; [reflexivity|]. cbn. split; [exact Ha|].
      rewrite Hs0, Hl0. split; intros x Hx; inversion Hx.
Qed.

(** Where nothing listens, no event reaches the binder. *)
Lemma dispatch_unheard e k ev payload w :
  subscriptions w = [] → exec (dispatch opts ctx e k ev payload) w = w.
Proof. intros H. rewrite dispatch_spec, H. reflexivity. Qed.

(** *** The refetching flag *)

(** What each of the five callbacks does to the flag. *)
Lemma onEvent_isRefetching ev payload w :
  isRefetching (exec (onEvent opts ctx ev payload) w) =
  match ev with
  | Refetching => true
  | Resolved | Error => false
  | Mutated | Forgotten => isRefetching w
  end.
Proof.
  destruct ev; cbn; try reflexivity.
  destruct (clearOnForget opts ctx); reflexivity.
Qed.

(** Whenever the watcher runs its callback, for an active or an absent
    key, the flag is false when the callback reaches its [await] or its
    [return]. *)
Lemma key_change_resets_flag fn w wt :
  watcher w = Some wt → w_active wt = true →
  w_old wt ≠ Some (computedKey fn) →
  isRefetching (exec (step opts ctx win (DepsChanged fn)) w) = false.
Proof.
  intros Hw Ha Hc. unfold step. rewrite exec_seq.
  change (exec (put (set_key fn)) w) with (set_key fn w).
  rewrite job_unfold. change (watcher (set_key fn w)) with (watcher w).
  rewrite Hw, Ha. cbn [andb]. change (key (set_key fn w)) with fn.
  rewrite bool_decide_true by exact Hc.
  destruct (active (computedKey fn)) as [k|] eqn:Hk.
  - apply (watchCallback_active _ _ _ Hk).
  - rewrite (watchCallback_absent _ _ Hk). reflexivity.
Qed.

(** C4.  [clearOnForget] defaults to false.  When it is false, a
    [forgotten] event, for any key and in any world, changes nothing,
    the resource included.  When it is true, a [forgotten] event that a
    listener hears leaves the resource [undefined]; and in every world
    the binder can reach with its watcher active, the [forgotten] event
    of the current key is heard. *)
Theorem C4_forgotten_and_clearOnForget :
  clearOnForget None None = false ∧
  (clearOnForget opts ctx = false →
   ∀ w e k payload, exec (dispatch opts ctx e k Forgotten payload) w = w) ∧
  (clearOnForget opts ctx = true →
   (∀ w e k payload id,
      mkSub id e k Forgotten ∈ subscriptions w →
      resource (exec (dispatch opts ctx e k Forgotten payload) w) = VUndef) ∧
   (∀ w wt s payload,
      Reachable opts ctx win w →
      watcher w = Some wt → w_active wt = true →
      active (computedKey (key w)) = Some s →
      resource
        (exec (dispatch opts ctx (facade opts ctx) s Forgotten payload) w)
      = VUndef)).
Proof.
  split; [reflexivity|]. split.
  - intros Hc w e k payload. rewrite dispatch_spec.
    destruct (listening _ _ _ _); [reflexivity|].
    cbn. rewrite Hc. reflexivity.
  - intros Hc.
    assert (Hheard : ∀ w e k payload id,
      mkSub id e k Forgotten ∈ subscriptions w →
      resource (exec (dispatch opts ctx e k Forgotten payload) w) = VUndef).
    { intros w e k payload id Hid. rewrite (dispatch_heard _ _ _ _ _ _ Hid).
      cbn. rewrite Hc. reflexivity. }
    split; [exact Hheard|].
    intros w wt s payload HR Hw Ha Hs.
    destruct (Reachable_Bound w HR wt Hw Ha) as [_ Hsub].
    destruct (Hsub s Forgotten Hs) as [id Hid].
    apply (Hheard _ _ _ _ _ Hid).
Qed.

End BinderFacts.

(** ** The tracker *)

Lemma createStale_initial precision fn expiration now :
  let t := createStale precision fn expiration now in
  (isStale t, staleIn t) =
  match active (computedKey fn) ≫= (expiration !!.) with
  | Some expiresAt =>
      (bool_decide (expiresAt < now), Z.max 0 (expiresAt - now))
  | None => (true, 0)
  end ∧
  t_intervals t = [] ∧ t_old t = computedKey fn.
Proof.
  cbn zeta. unfold createStale. split; [|split; reflexivity].
  destruct (active (computedKey fn)) as [k|]; [|reflexivity]. cbn.
  destruct (expiration !! k) as [x|]; [|reflexivity]. cbn. f_equal.
  - destruct (Z.ltb_spec x now);
      [rewrite bool_decide_true|rewrite bool_decide_false]; auto; lia.
  - destruct (Z.geb_spec (x - now) 0); lia.
Qed.

(** What one firing of a timer computes, for a key that is active and
    dated in the cache. *)
Lemma poll_recomputes k s expiresAt t :
  active k = Some s → t_expiration t !! s = Some expiresAt →
  0 ≤ staleIn t →
  isStale (poll k t) = bool_decide (expiresAt < t_clock t) ∧
  staleIn (poll k t) = Z.max 0 (expiresAt - t_clock t).
Proof.
  intros Hk He Hs. unfold poll. rewrite Hk, He. cbn. split.
  - destruct (Z.ltb_spec expiresAt (t_clock t));
      [rewrite bool_decide_true|rewrite bool_decide_false]; auto; lia.
  - destruct (Z.geb_spec (expiresAt - t_clock t) 0); [lia|].
    destruct (Z.ltb_spec (expiresAt - t_clock t) 0); [|lia].
    destruct (Z.gtb_spec (staleIn t) 0); cbn; lia.
Qed.

Lemma clearInterval_one_timer t :
  one_timer t →
  t_intervals (from_option clearInterval id (t_cleanup t) t) = [].
Proof.
  intros [H|(iv & H & Hc & _)].
  - destruct (t_cleanup t); cbn; [rewrite H|]; done.
  - rewrite Hc. cbn. rewrite H. cbn.
    rewrite decide_False by (intros E; apply E; reflexivity). reflexivity.
Qed.

(** On a change of key the tracker stops the timer of the key it leaves
    and starts one for the key it enters. *)
Lemma staleJob_restarts fn t :
  one_timer t → t_active t = true → t_old t ≠ computedKey fn →
  let t' := trackerStep (TDepsChanged fn) t in
  t_intervals t' = [mkInterval (t_fresh t) (t_precision t) (computedKey fn)] ∧
  one_timer t'.
Proof.
  intros H1 Ha Hc. cbn zeta. unfold trackerStep, staleJob, one_timer in *.
  destruct t as [k e c p st si a o cl ivs n]. cbn in *. subst a.
  rewrite bool_decide_true by exact Hc.
  destruct H1 as [->|(iv & -> & -> & _)].
  - destruct cl; cbn; (split; [reflexivity|]); right; eexists; cbn;
      repeat split.
  - cbn. rewrite decide_False by (intros E; apply E; reflexivity). cbn.
    split; [reflexivity|]. right. eexists. cbn. repeat split.
Qed.

(** Disposal stops the timer and the watcher, for good. *)
Lemma staleStop_stops t :
  one_timer t →
  let t' := trackerStep TUnmounted t in
  t_intervals t' = [] ∧ t_active t' = false ∧
  ∀ fn, trackerStep (TDepsChanged fn) t' =
        set_t_env fn (t_expiration t') (t_clock t') t'.
Proof.
  intros H1. cbn zeta. unfold trackerStep, staleStop, staleJob, one_timer in *.
  destruct t as [k e c p st si a o cl ivs n]. cbn in *.
  destruct H1 as [->|(iv & -> & -> & _ & ->)].
  - destruct a; [destruct cl|]; cbn; repeat split.
  - cbn. rewrite decide_False by (intros E; apply E; reflexivity). cbn.
    repeat split.
Qed.

Lemma trackerA_idle (ticks : list (N * nat)) t :
  t_intervals t = [] →
  let t' := trackerRun (flat_map (λ '(dt, i), [TElapse dt; TFires i]) ticks) t
  in isStale t' = isStale t ∧ staleIn t' = staleIn t ∧
     t_clock t' = t_clock t + Z.of_N (foldr N.add 0%N ticks.*1).
Proof.
  revert t. induction ticks as [|[dt i] ticks IH]; intros t H.
  - cbn. repeat split. lia.
  - cbn [flat_map app trackerRun fold_left].
    set (t1 := trackerStep (TElapse dt) t).
    assert (H1 : t_intervals t1 = []) by exact H.
    assert (E : trackerStep (TFires i) t1 = t1).
    { unfold trackerStep. rewrite H1. reflexivity. }
    rewrite E. destruct (IH t1 H1) as (Hi & Hs & Hc).
    fold (trackerRun (flat_map (λ '(dt, i), [TElapse dt; TFires i]) ticks) t1).
    rewrite Hi, Hs, Hc. cbn. repeat split. lia.
Qed.

(** C8, at the failing input.  The tracker of the key ["A"], which
    expires at time 1000, created at time 0: the initial pair is
    [isStale = false], [staleIn = 1000], and no timer is started, the
    watcher being installed without [immediate].  Whatever time passes
    and whichever timers the runtime fires, as long as the key does not
    change the pair stays as it was, also after time 1000. *)
Theorem C8_no_poll_for_the_key_at_creation (ticks : list (N * nat)) :
  let t := trackerRun (flat_map (λ '(dt, i), [TElapse dt; TFires i]) ticks)
             trackerA in
  t_intervals trackerA = [] ∧
  isStale t = false ∧ staleIn t = 1000 ∧
  t_clock t = Z.of_N (foldr N.add 0%N ticks.*1).
Proof.
  cbn zeta. split; [reflexivity|].
  destruct (trackerA_idle ticks trackerA eq_refl) as (Hi & Hs & Hc).
  rewrite Hi, Hs, Hc. repeat split.
Qed.

Lemma one_timer_create precision fn expiration now :
  one_timer (createStale precision fn expiration now).
Proof. left. reflexivity. Qed.

Lemma one_timer_same t t' :
  one_timer t → t_intervals t' = t_intervals t →
  t_cleanup t' = t_cleanup t → t_old t' = t_old t →
  t_active t' = t_active t → one_timer t'.
Proof.
  unfold one_timer. intros [H|(iv & H1 & H2 & H3 & H4)] Ei Ec Eo Ea.
  - left. congruence.
  - right. exists iv. rewrite Ei, Ec, Eo, Ea. auto.
Qed.

Lemma one_timer_step i t : one_timer t → one_timer (trackerStep i t).
Proof.
  intros H. destruct i as [fn|k e|dt|n|].
  - destruct (t_active t) eqn:Ha.
    + destruct (decide (t_old t = computedKey fn)) as [E|E].
      * apply (one_timer_same t); auto; unfold trackerStep, staleJob;
          cbn [t_active t_key t_old set_t_env];
          rewrite Ha, bool_decide_false by tauto; auto.
      * apply staleJob_restarts; assumption.
    + apply (one_timer_same t); auto; unfold trackerStep, staleJob;
        cbn [t_active set_t_env]; rewrite Ha; auto.
  - exact H.
  - exact H.
  - unfold trackerStep.
    destruct (list_find _ (t_intervals t)) as [[? iv]|]; [|exact H].
    unfold poll. destruct (active (iv_key iv)); [|exact H].
    destruct (t_expiration t !! s); exact H.
  - left. apply staleStop_stops. exact H.
Qed.

(** ** The claims at concrete inputs *)

(** C1, at the failing input.  The binder is created for the key ["A"]
    and the query of its watcher is still awaited when the key becomes
    ["B"]: no disposer is called, the five listeners and the two window
    listeners of ["A"] stay registered, and those of ["B"] are added to
    them.  When both queries have then resolved and the key becomes
    absent, the listeners of ["B"] are disposed of and those of ["A"]
    remain.  The cleanup of a run of the watcher callback is registered
    after its [await], so a key change during the [await] finds nothing
    to call. *)
Theorem C1_superseded_key_stays_subscribed :
  let w1 := run None None true [DepsChanged keyB] awaitingA in
  let w2 := run None None true
              [QuerySettled 7 (Returns (VNum 1));
               QuerySettled 15 (Returns (VNum 2));
               DepsChanged keyAbsent] w1 in
  liveKeys awaitingA = ["A"; "A"; "A"; "A"; "A"] ∧
  disposals (trace w1) = [] ∧
  liveKeys w1 = ["A"; "A"; "A"; "A"; "A"; "B"; "B"; "B"; "B"; "B"] ∧
  listeners w1 = [(Focus, 5); (Online, 6); (Focus, 13); (Online, 14)]%nat ∧
  active (computedKey (key w2)) = None ∧
  liveKeys w2 = ["A"; "A"; "A"; "A"; "A"] ∧
  listeners w2 = [(Focus, 5); (Online, 6)]%nat.
Proof. vm_compute. repeat split. Qed.

(** C2, at the failing input.  The binder is created for the key ["A"]
    and the query of its watcher is still awaited when the key becomes
    absent: the flag is false right after the change, the listeners of
    ["A"] are still registered, and a [refetching] event of ["A"] sets
    the flag to true while no key is active.  This is the defect of C1:
    the listeners of the key that was left were not disposed of. *)
Theorem C2_refetching_while_the_key_is_absent :
  let w1 := run None None true [DepsChanged keyAbsent] awaitingA in
  let w2 := run None None true
              [CacheEvent ModuleEngine "A" Refetching VUndef] w1 in
  active (computedKey (key w1)) = None ∧ isRefetching w1 = false ∧
  active (computedKey (key w2)) = None ∧ isRefetching w2 = true.
Proof. vm_compute. repeat split. Qed.

(** The sample world [settledA] is settled, and the change of its key to
    ["B"] tears down before it subscribes. *)
Lemma settledA_Settled : Settled settledA.
Proof.
  assert (Ew : watcher settledA =
               Some (mkWatcher true (Some (KString "A"))
                       (Some (mkSet (DUnsubscribe 0) (DUnsubscribe 1)
                                (DUnsubscribe 2) (DUnsubscribe 3)
                                (DUnsubscribe 4) (DRemoveListener Focus 5)
                                (DRemoveListener Online 6)))))
    by (vm_compute; reflexivity).
  assert (Es : subscriptions settledA = subscribed ModuleEngine "A" 0)
    by (vm_compute; reflexivity).
  assert (El : listeners settledA = [(Focus, 5%nat); (Online, 6%nat)])
    by (vm_compute; reflexivity).
  split; [vm_compute; reflexivity|].
  eexists. split; [exact Ew|]. split; [reflexivity|].
  rewrite Es, El. unfold subscribed.
  split; intros x Hin; (eexists; split; [reflexivity|]);
    rewrite !elem_of_cons, elem_of_nil in Hin;
    decompose [or] Hin; subst; try contradiction; unfold disposers; cbn;
    repeat first [apply list_elem_of_here | apply list_elem_of_further].
Qed.

Lemma settledA_to_B :
  let w1 := exec (step None None true (DepsChanged keyB)) settledA in
  liveKeys w1 = ["B"; "B"; "B"; "B"; "B"] ∧
  disposals (trace w1) =
    [EUnsubscribe 0; EUnsubscribe 1; EUnsubscribe 2; EUnsubscribe 3;
     EUnsubscribe 4; ERemoveListener Focus 5; ERemoveListener Online 6]%nat ∧
  listeners w1 = [(Focus, 13); (Online, 14)]%nat.
Proof. vm_compute. repeat split. Qed.

(** C6 as stated fails: the payload ["boom"] delivered twice, with a
    flush after each delivery, is thrown once, not twice. *)
Lemma C6_repeated_payload_thrown_once :
  let w := run None None true
             [CacheEvent ModuleEngine "A" Error (VStr "boom"); Flush;
              CacheEvent ModuleEngine "A" Error (VStr "boom"); Flush]
             settledA in
  error w = VStr "boom" ∧
  rethrown (trace w) = [VStr "boom"] ∧
  rethrown (trace w) ≠ [VStr "boom"; VStr "boom"].
Proof. vm_compute. repeat split. discriminate. Qed.

(** C9 as stated fails: a binder constructed with [{ stale: true }]
    refetches with [stale: true].  The three queries of the run below
    are the two of the creation and the one of [refetch()]. *)
Lemma C9_binder_options_override_stale :
  let options : option JsObj := Some {[ "stale" := VBool true ]} in
  let w := run options None true
             [InitialSettled (Returns (VNum 1)); CallRefetch None]
             (create options None true keyA 0) in
  map (λ q, (q.1, q.2 !! "stale")) (queries (trace w)) =
  [(ModuleEngine, "A", Some (VBool true));
   (ModuleEngine, "A", Some (VBool true));
   (ModuleEngine, "A", Some (VBool true))] ∧
  last (map (λ q, q.2 !! "stale") (queries (trace w)))
  ≠ Some (Some (VBool false)).
Proof. vm_compute. split; [reflexivity|discriminate]. Qed.

(** ** Instances *)

Lemma C3_throwing_key_instance :
  keyThrowing () = Throws (VStr "no id") ∧
  computedKey keyThrowing = KNull ∧
  (∀ now, stage (create None None true keyThrowing now) = Running ∧
          trace (create None None true keyThrowing now) = []) ∧
  (∀ w, let w' := exec (step None None true (DepsChanged keyThrowing)) w in
        stage w' = stage w ∧ queries (trace w') = queries (trace w)).
Proof.
  split; [reflexivity|].
  apply (C3_throwing_key_is_absent None None true keyThrowing (VStr "no id")).
  reflexivity.
Defined.

Lemma C4_forgotten_instance :
  (clearOnForget None None = false ∧
   resource (exec (dispatch None None ModuleEngine "A" Forgotten VUndef)
               settledA) = VNum 1) ∧
  (clearOnForget (Some {[ "clearOnForget" := VBool true ]}) None = true ∧
   resource (exec (dispatch (Some {[ "clearOnForget" := VBool true ]}) None
                     ModuleEngine "A" Forgotten VUndef) settledA) = VUndef).
Proof.
  split.
  - split; [reflexivity|].
    rewrite (proj1 (proj2 (C4_forgotten_and_clearOnForget None None true))
               eq_refl).
    reflexivity.
  - assert (H : clearOnForget (Some {[ "clearOnForget" := VBool true ]}) None
                = true) by (vm_compute; reflexivity).
    split; [exact H|].
    apply (proj1 (proj2 (proj2 (C4_forgotten_and_clearOnForget
                   (Some {[ "clearOnForget" := VBool true ]}) None true))
                   H) settledA ModuleEngine "A" VUndef 4%nat).
    vm_compute.
    repeat first [apply list_elem_of_here | apply list_elem_of_further].
Defined.

Lemma C5_focus_throttle_instance :
  (Z.of_N 1000 ≤ focusInterval None None) ∧
  (length (queries (trace
     (run None None true
        [WindowFires Focus; Elapse 1000; WindowFires Focus]
        (run None None true [Elapse 6000] settledA))))
   ≤ 1 + length (queries (trace (run None None true [Elapse 6000] settledA))))%nat.
Proof.
  split; [vm_compute; discriminate|].
  apply (proj2 (proj2 (C5_focus_throttle None None true))).
  vm_compute. discriminate.
Defined.

Lemma C7_actions_instance :
  (active (computedKey (key (create None None true keyAbsent 0))) = None ∧
   refetch None None (Some {[ "fresh" := VBool true ]})
     (create None None true keyAbsent 0)
   = (Completed VUndef, create None None true keyAbsent 0)) ∧
  (active (computedKey (key settledA)) = Some "A" ∧
   exec (localForget None None) settledA =
   emitted (EForget ModuleEngine "A") settledA).
Proof.
  split.
  - split; [reflexivity|].
    apply (proj1 (C7_actions_need_a_key None None
                    (create None None true keyAbsent 0)) eq_refl
             (Some {[ "fresh" := VBool true ]}) VUndef VUndef VUndef).
  - split; [reflexivity|].
    apply (proj2 (C7_actions_need_a_key None None settledA) "A" eq_refl
             None VUndef VUndef).
Defined.

Lemma C9_refetch_instance :
  active (computedKey (key settledA)) = Some "A" ∧
  refetchOptions None (Some {[ "fresh" := VBool true ]}) !! "stale"
  = Some (VBool false).
Proof.
  split; [reflexivity|].
  apply (C9_refetch_merges_options None None settledA "A"
           (Some {[ "fresh" := VBool true ]}) eq_refl);
    reflexivity.
Defined.


(** * Further properties of the binder *)

(** ** Keeping a property along an action *)

Lemma preserves_ret {A} (P : World → Prop) (a : A) : preserves P (mret a).
Proof. intros w H. exact H. Qed.

Lemma preserves_get {A} (P : World → Prop) (f : World → A) :
  preserves P (get f).
Proof. intros w H. exact H. Qed.

Lemma preserves_bind {A B} (P : World → Prop) (m : Act A) (f : A → Act B) :
  preserves P m → (∀ a, preserves P (f a)) → preserves P (m ≫= f).
Proof.
  intros Hm Hf w H. unfold mbind, Act_bind. specialize (Hm w H).
  destruct (m w) as [a w']. apply Hf, Hm.
Qed.

Lemma preserves_for_each {A} (P : World → Prop) (f : A → Act unit) l :
  (∀ x, preserves P (f x)) → preserves P (for_each f l).
Proof.
  intros H. induction l as [|x l IH]; [apply preserves_ret|].
  cbn [for_each]. apply preserves_bind; [apply H|intros _; exact IH].
Qed.

Lemma preserves_exec {A} (P : World → Prop) (m : Act A) w :
  preserves P m → P w → P (exec m w).
Proof. intros H Hw. apply H, Hw. Qed.

Lemma preserves_put (P : World → Prop) (f : World → World) :
  (∀ w, P w → P (f w)) → preserves P (put f).
Proof. intros H w Hw. apply H, Hw. Qed.

(** One step of the syntax-directed argument. *)
Ltac pres_step :=
  lazymatch goal with
  | |- preserves _ (mret _) => apply preserves_ret
  | |- preserves _ skip => apply preserves_ret
  | |- preserves _ (get _) => apply preserves_get
  | |- preserves _ (_ ≫= _) => apply preserves_bind; [|intros ?]
  | |- preserves _ (for_each _ _) => apply preserves_for_each; intros ?
  | |- preserves _ (from_option _ _ ?o) => destruct o; cbn [from_option]
  | |- preserves _ (match ?x with _ => _ end) => destruct x eqn:?
  | |- preserves _ (put _) => apply preserves_put; intros ? ?
  | |- preserves _ (emit _) => apply preserves_put; intros ? ?
  | |- preserves _ gensym => intros ? ?; unfold gensym; cbn [snd]
  end.

Ltac unfold_binder :=
  unfold step, whenRunning, createTurboResource_resume, createTurboResource,
    createTurboResource_rest, settle, fire, dispatch, unsubscribe, job,
    watchCallback_resume, watchCallback, suspend, cleanup, onCleanup,
    onEvent, errorJob, refetchListener, onFocus, onConnect, addEventListener,
    rawHandler, localAbort, localForget, localMutate, refetch, currentKey,
    dispose, turboSubscribe, turboAbort, turboForget, turboMutate, turboQuery.

Ltac pres := unfold_binder; repeat pres_step.

(** The same argument with the named functions unfolded one at a time,
    so that [tac] can settle some of them as a whole. *)
Ltac head_of t :=
  lazymatch t with
  | ?f _ => head_of f
  | _ => t
  end.

Ltac pres_with tac :=
  repeat first
    [ tac
    | pres_step
    | lazymatch goal with
      | |- preserves _ ?m => let h := head_of m in progress unfold h
      end ].

Section Invariants.
Variables opts ctx : option JsObj.
Variable win : bool.

(** A property that holds when [createTurboResource] is called and that
    every step keeps holds in every world the binder can reach. *)
Lemma Reachable_ind (P : World → Prop) :
  (∀ fn now, P (boot fn now)) →
  preserves P (createTurboResource opts ctx win) →
  (∀ i, preserves P (step opts ctx win i)) →
  ∀ w, Reachable opts ctx win w → P w.
Proof.
  intros Hb Hc Hs w (fn & now & inputs & ->).
  assert (H0 : P (create opts ctx win fn now)) by (apply Hc, Hb).
  revert H0. generalize (create opts ctx win fn now).
  induction inputs as [|i inputs IH]; intros w H; [exact H|].
  cbn [run fold_left]. apply IH, Hs, H.
Qed.

Lemma no_listener_step ev i :
  enabled opts ctx win ev = false →
  preserves (λ w, ∀ id, (ev, id) ∉ listeners w) (step opts ctx win i).
Proof.
  intros Hoff.
  destruct ev; cbn in Hoff; destruct i; pres; cbn; try assumption;
    try (rewrite Hoff in *; discriminate);
    intros id' Hin;
    repeat first
      [ apply list_elem_of_filter in Hin as [_ Hin]
      | apply elem_of_app in Hin as [Hin|Hin]
      | apply elem_of_cons in Hin as [Hin|Hin]
      | apply elem_of_nil in Hin ];
    try discriminate; try contradiction;
    match goal with H : ∀ id, _ ∉ _ |- _ => eapply H; exact Hin end.
Qed.

Lemma no_listener_create ev :
  enabled opts ctx win ev = false →
  preserves (λ w, ∀ id, (ev, id) ∉ listeners w)
    (createTurboResource opts ctx win).
Proof.
  intros Hoff.
  destruct ev; cbn in Hoff; pres; cbn; try assumption;
    try (rewrite Hoff in *; discriminate);
    intros id' Hin;
    repeat first
      [ apply list_elem_of_filter in Hin as [_ Hin]
      | apply elem_of_app in Hin as [Hin|Hin]
      | apply elem_of_cons in Hin as [Hin|Hin]
      | apply elem_of_nil in Hin ];
    try discriminate; try contradiction;
    match goal with H : ∀ id, _ ∉ _ |- _ => eapply H; exact Hin end.
Qed.

Lemma fire_unheard ev w :
  hearing ev w = [] → exec (fire opts ctx ev) w = w.
Proof.
  intros H. unfold fire. rewrite exec_bind. unfold get. cbn [fst snd].
  unfold hearing in H. rewrite H. reflexivity.
Qed.

(** X1.  A trigger that is disabled, by its option or because the host
    has no window, never registers a listener: in every world the
    binder can reach the window has no listener for that event, and the
    event changes nothing. *)
Theorem disabled_trigger_never_listens (ev : WindowEvent) (w : World) :
  enabled opts ctx win ev = false →
  Reachable opts ctx win w →
  hearing ev w = [] ∧ exec (fire opts ctx ev) w = w.
Proof.
  intros Hoff HR.
  assert (Hn : ∀ id, (ev, id) ∉ listeners w).
  { revert w HR. apply (Reachable_ind (λ w, ∀ id, (ev, id) ∉ listeners w)).
    - intros fn now id Hin. inversion Hin.
    - apply no_listener_create, Hoff.
    - intros i. apply no_listener_step, Hoff. }
  assert (He : hearing ev w = []).
  { apply nil_if_no_elem. intros [ev' id] Hin. unfold hearing in Hin.
    apply list_elem_of_filter in Hin as [E Hin]. cbn in E. subst ev'.
    exact (Hn id Hin). }
  split; [exact He|apply fire_unheard, He].
Qed.

(** *** The throttle at creation *)

(** X2.  The throttle of the focus trigger starts when the binder is
    returned: [lastFocus] is then the present, so a focus event that
    comes no later than [focusInterval] after the return is swallowed,
    whatever listeners are registered. *)
Theorem focus_right_after_creation_is_swallowed (w : World) (dt : N) :
  Z.of_N dt ≤ focusInterval opts ctx →
  let w1 := exec (createTurboResource_rest opts ctx win) w in
  lastFocus w1 = clock w ∧
  exec (fire opts ctx Focus) (exec (step opts ctx win (Elapse dt)) w1)
  = exec (step opts ctx win (Elapse dt)) w1.
Proof.
  intros Hdt. cbn zeta.
  assert (H : lastFocus (exec (createTurboResource_rest opts ctx win) w)
              = clock w ∧
              clock (exec (createTurboResource_rest opts ctx win) w)
              = clock w).
  { rewrite rest_unfold. cbn [lastFocus clock set_stage].
    set (w0 := set_watcher _ _).
    assert (H0 : lastFocus w0 = clock w ∧ clock w0 = clock w)
      by (split; reflexivity).
    clearbody w0.
    apply (preserves_exec
             (λ w', lastFocus w' = clock w ∧ clock w' = clock w)
             (job opts ctx win) w0); [|exact H0].
    pres_with fail; cbn; assumption. }
  destruct H as [Hl Hc]. split; [exact Hl|].
  apply fire_focus_throttled.
  change (exec (step opts ctx win (Elapse dt)) ?x)
    with (set_clock (clock x + Z.of_N dt) x).
  cbn. lia.
Qed.

(** *** The reconnection trigger *)

Lemma refetchListeners_spec {A} (l : list A) w s :
  active (computedKey (key w)) = Some s →
  let w' := exec (for_each (λ _, refetchListener opts ctx) l) w in
  queries (trace w') =
    queries (trace w) ++
    replicate (length l) (facade opts ctx, s, refetchOptions opts None) ∧
  lastFocus w' = lastFocus w ∧ key w' = key w.
Proof.
  revert w. induction l as [|x l IH]; intros w H; cbn zeta.
  - cbn. rewrite app_nil_r. auto.
  - rewrite for_each_cons, refetchListener_spec, H.
    set (w1 := emitted _ w).
    destruct (IH w1 H) as (Hq & Hl & Hk). rewrite Hq, Hl, Hk.
    unfold w1. cbn [trace emitted set_trace lastFocus key].
    rewrite queries_snoc, <- app_assoc. auto.
Qed.

(** X3.  The reconnection trigger is not throttled: with an active key
    every [online] event makes each registered listener issue one
    refetch query [{ stale: false, ...options }] for the current key to
    the resolved engine, and [lastFocus] is not touched; with no active
    key the event changes nothing. *)
Theorem online_refetches_without_throttle (w : World) :
  (∀ s, active (computedKey (key w)) = Some s →
     queries (trace (exec (fire opts ctx Online) w)) =
       queries (trace w) ++
       replicate (length (hearing Online w))
         (facade opts ctx, s, refetchOptions opts None) ∧
     lastFocus (exec (fire opts ctx Online) w) = lastFocus w) ∧
  (active (computedKey (key w)) = None →
     exec (fire opts ctx Online) w = w).
Proof.
  split.
  - intros s H. unfold fire. rewrite exec_bind. unfold get. cbn [fst snd].
    destruct (refetchListeners_spec (filter (λ l, l.1 = Online) (listeners w))
                w s H) as (Hq & Hl & _).
    split; [exact Hq|exact Hl].
  - intros H. unfold fire. rewrite exec_bind. unfold get. cbn [fst snd].
    induction (filter (λ l, l.1 = Online) (listeners w)) as [|x l IH];
      [reflexivity|].
    rewrite for_each_cons, refetchListener_spec, H. exact IH.
Qed.

(** *** The error slot and what is thrown *)

Lemma dispatch_cases e k ev payload w :
  exec (dispatch opts ctx e k ev payload) w = w ∨
  exec (dispatch opts ctx e k ev payload) w
  = exec (onEvent opts ctx ev payload) w.
Proof.
  rewrite dispatch_spec. destruct (listening _ _ _ _); auto.
Qed.

(** X4.  The error slot is written by the callback of the [error] event
    and by nothing else: a step either leaves the slot as it was, or it
    is an [error] event and the slot holds its payload.  In particular
    no key change, no resolved query and no rejected query clears or
    sets the slot. *)
Theorem error_slot_written_by_error_events_only (i : Input) (w : World) :
  error (exec (step opts ctx win i) w) = error w ∨
  ∃ e k payload,
    i = CacheEvent e k Error payload ∧
    error (exec (step opts ctx win i) w) = payload.
Proof.
  destruct i as [r|fn|p r|e k ev payload|ev|dt| |ops|item| |reason| ].
  4:{ cbn [step]. destruct (dispatch_cases e k ev payload w) as [->| ->];
        [left; reflexivity|].
      destruct ev; cbn; try (left; reflexivity).
      - right. eauto.
      - destruct (clearOnForget opts ctx); left; reflexivity. }
  all: left;
    apply (preserves_exec (λ w', error w' = error w)); [|reflexivity];
    pres; cbn; assumption.
Qed.

(** X5.  A value is thrown by the watcher on the error slot only at a
    flush, and then it is the content of the slot, which is not
    [undefined] and is not the value the watcher saw last; no other
    step throws through that watcher. *)
Theorem rethrow_only_at_flush (i : Input) (w : World) :
  rethrown (trace (exec (step opts ctx win i) w)) = rethrown (trace w) ∨
  (i = Flush ∧
   rethrown (trace (exec (step opts ctx win i) w)) =
     rethrown (trace w) ++ [error w] ∧
   error w ≠ VUndef ∧ error w ≠ errorSeen w).
Proof.
  destruct i as [r|fn|p r|e k ev payload|ev|dt| |ops|item| |reason| ].
  7:{ cbn [step]. rewrite errorJob_spec. unfold hasChanged, object_is.
      destruct (decide (error w = errorSeen w)) as [E|E].
      - rewrite bool_decide_true by exact E. left. reflexivity.
      - rewrite (bool_decide_false _ E). cbn [negb].
        destruct (decide (error w = VUndef)) as [U|U].
        + rewrite bool_decide_false by tauto. left. reflexivity.
        + rewrite bool_decide_true by exact U. right. cbn.
          rewrite rethrown_app. auto. }
  all: left;
    apply (preserves_exec (λ w', rethrown (trace w') = rethrown (trace w)));
    [|reflexivity];
    pres; cbn; rewrite ?rethrown_app, ?app_nil_r; assumption.
Qed.

(** *** Disposal *)

(** X6.  Disposal is idempotent and final: a second call of the
    function returned by [watch] changes nothing and has no effect, and
    after disposal a change of the key only changes the key, with no
    cleanup, no subscription and no query. *)
Theorem unsubscribe_is_idempotent_and_final (w : World) :
  let w1 := exec unsubscribe w in
  exec unsubscribe w1 = w1 ∧
  ∀ fn, exec (step opts ctx win (DepsChanged fn)) w1 = set_key fn w1.
Proof.
  cbn zeta. rewrite (unsubscribe_spec w).
  destruct (watcher w) as [wt|] eqn:Hw.
  - destruct (w_active wt) eqn:Ha.
    + split.
      * rewrite unsubscribe_spec. reflexivity.
      * intros fn. unfold step. rewrite exec_seq, job_unfold. reflexivity.
    + split.
      * rewrite unsubscribe_spec, Hw, Ha. reflexivity.
      * intros fn. unfold step. rewrite exec_seq, job_unfold.
        change (watcher (exec (put (set_key fn)) w)) with (watcher w).
        rewrite Hw, Ha. reflexivity.
  - split.
    + rewrite unsubscribe_spec, Hw. reflexivity.
    + intros fn. unfold step. rewrite exec_seq, job_unfold.
      change (watcher (exec (put (set_key fn)) w)) with (watcher w).
      rewrite Hw. reflexivity.
Qed.

(** X7.  Disposal of a settled binder leaves no listener behind, in the
    engine or on the window, so that no event of the cache and no
    window event reaches the binder afterwards. *)
Theorem unsubscribe_of_a_settled_binder_silences_it (w : World) :
  Settled w →
  let w1 := exec unsubscribe w in
  subscriptions w1 = [] ∧ listeners w1 = [] ∧
  (∀ e k ev payload, exec (dispatch opts ctx e k ev payload) w1 = w1) ∧
  (∀ ev, exec (fire opts ctx ev) w1 = w1).
Proof.
  intros HS. cbn zeta. rewrite unsubscribe_spec.
  destruct HS as (Hp & wt & Hw & Ha & Hs & Hl).
  assert (HS : Settled w) by (split; [exact Hp|]; eauto 6).
  rewrite Hw, Ha.
  destruct (cleanup_settled w wt HS Hw) as (Hs0 & Hl0 & _).
  set (w0 := exec (from_option cleanup skip (w_cleanup wt)) w) in *.
  assert (E1 : subscriptions (set_watcher
             (Some (mkWatcher false (w_old wt) (w_cleanup wt))) w0) = [])
    by exact Hs0.
  assert (E2 : listeners (set_watcher
             (Some (mkWatcher false (w_old wt) (w_cleanup wt))) w0) = [])
    by exact Hl0.
  repeat split; [exact E1|exact E2| |].
  - intros. apply dispatch_unheard, E1.
  - intros ev. apply fire_unheard. unfold hearing. rewrite E2. reflexivity.
Qed.

(** *** Key changes that do not bring an active key *)

Lemma step_same_key (fn : TurboVueKey) (w : World) (wt : Watcher) :
  watcher w = Some wt → w_old wt = Some (computedKey fn) →
  exec (step opts ctx win (DepsChanged fn)) w = set_key fn w.
Proof.
  intros Hw Ho. unfold step. rewrite exec_seq, job_unfold.
  change (exec (put (set_key fn)) w) with (set_key fn w).
  change (watcher (set_key fn w)) with (watcher w). rewrite Hw.
  change (key (set_key fn w)) with fn.
  rewrite (bool_decide_false (w_old wt ≠ Some (computedKey fn)))
    by (intros E; apply E, Ho).
  rewrite andb_false_r. reflexivity.
Qed.

(** X8.  In every world the binder can reach, a change of the reactive
    state that leaves the computed key as it is changes nothing but the
    key function: no cleanup runs, nothing is subscribed and nothing is
    queried.  Two key functions that throw, or one that throws and one
    that returns [null], are the same key in this sense. *)
Theorem same_key_is_no_transition (fn : TurboVueKey) (w : World) :
  Reachable opts ctx win w →
  computedKey fn = computedKey (key w) →
  exec (step opts ctx win (DepsChanged fn)) w = set_key fn w.
Proof.
  intros HR Hk. pose proof (Reachable_Bound opts ctx win w HR) as HB.
  destruct (watcher w) as [wt|] eqn:Hw.
  - destruct (w_active wt) eqn:Ha.
    + destruct (HB wt Hw Ha) as [Ho _].
      apply (step_same_key fn w wt Hw). congruence.
    + unfold step. rewrite exec_seq, job_unfold.
      change (watcher (exec (put (set_key fn)) w)) with (watcher w).
      rewrite Hw, Ha. reflexivity.
  - unfold step. rewrite exec_seq, job_unfold.
    change (watcher (exec (put (set_key fn)) w)) with (watcher w).
    rewrite Hw. reflexivity.
Qed.

(** X9.  Every absent key, be it [null], [false], the empty string or a
    key function that throws, is treated alike: the change to it adds
    no listener to the engine or to the window, parks no run of the
    callback, issues no query, and leaves the resource and the error
    slot as they are. *)
Theorem absent_key_subscribes_and_queries_nothing (fn : TurboVueKey)
    (w : World) :
  active (computedKey fn) = None →
  let w' := exec (step opts ctx win (DepsChanged fn)) w in
  queries (trace w') = queries (trace w) ∧
  pending w' = pending w ∧
  (∀ sub, sub ∈ subscriptions w' → sub ∈ subscriptions w) ∧
  (∀ l, l ∈ listeners w' → l ∈ listeners w) ∧
  resource w' = resource w ∧ error w' = error w.
Proof.
  intros H. cbn zeta. unfold step. rewrite exec_seq, job_unfold.
  change (exec (put (set_key fn)) w) with (set_key fn w).
  change (watcher (set_key fn w)) with (watcher w).
  change (key (set_key fn w)) with fn.
  destruct (watcher w) as [wt|]; [|repeat split; auto].
  destruct (w_active wt && _); [|repeat split; auto].
  rewrite (watchCallback_absent _ _ _ _ _ H).
  pose proof (slot_registries (w_cleanup wt) (set_key fn w)) as R.
  destruct R as (_ & Rr & Re & _ & _ & _ & _ & _ & Rp & _ & _ & Rq).
  set (w0 := exec (from_option cleanup skip (w_cleanup wt)) (set_key fn w))
    in *.
  cbn. repeat split; try assumption.
  - intros sub Hin. unfold w0 in Hin. destruct (w_cleanup wt) as [s|].
    + apply (cleanup_spec s (set_key fn w)) in Hin. apply Hin.
    + exact Hin.
  - intros l Hin. unfold w0 in Hin. destruct (w_cleanup wt) as [s|].
    + apply (cleanup_spec s (set_key fn w)) in Hin. apply Hin.
    + exact Hin.
Qed.

(** *** Settling the queries of the watcher *)

Lemma parked_suspend s : preserves parked_well (suspend s).
Proof.
  intros w [Hlt Hnd]. unfold suspend, gensym, mbind, Act_bind, put. cbn.
  split.
  - intros p s' Hin. apply elem_of_app in Hin as [Hin|Hin].
    + specialize (Hlt _ _ Hin). cbn. lia.
    + apply elem_of_cons in Hin as [[= -> ->]|Hin]; [cbn; lia|inversion Hin].
  - cbn. rewrite fmap_app. apply NoDup_app. split; [exact Hnd|]. split.
    + intros p Hp Hq. cbn in Hq. apply elem_of_cons in Hq as [->|Hq];
        [|inversion Hq].
      apply list_elem_of_fmap in Hp as ([p' s'] & E & Hin).
      specialize (Hlt _ _ Hin). cbn in E. lia.
    + cbn. apply NoDup_singleton.
Qed.

Lemma NoDup_fst_filter {A B} (P : A * B → Prop) `{∀ x, Decision (P x)}
    (l : list (A * B)) :
  NoDup l.*1 → NoDup (filter P l).*1.
Proof.
  induction l as [|[a b] l IH]; intros Hnd; [constructor|].
  rewrite fmap_cons in Hnd. cbn [fst] in Hnd.
  inversion Hnd as [|? ? Hin Hnd']; subst. rewrite filter_cons.
  destruct (decide (P (a, b))); cbn; [constructor|]; auto.
  intros Hin'. apply Hin.
  apply list_elem_of_fmap in Hin' as (x & -> & Hx).
  apply list_elem_of_filter in Hx as [_ Hx].
  apply list_elem_of_fmap. eauto.
Qed.

Lemma list_find_fst {B} (l : list (nat * B)) p s :
  NoDup l.*1 → (p, s) ∈ l →
  ∃ i, list_find (λ e, e.1 = p) l = Some (i, (p, s)).
Proof.
  induction l as [|[q t] l IH]; intros Hnd Hin; [inversion Hin|].
  cbn in Hnd. inversion Hnd as [|? ? Hq Hnd']; subst.
  apply elem_of_cons in Hin as [[= <- <-]|Hin].
  - exists 0%nat. cbn. rewrite decide_True by reflexivity. reflexivity.
  - destruct (IH Hnd' Hin) as [i Hi]. exists (S i). cbn.
    rewrite decide_False.
    + rewrite Hi. reflexivity.
    + cbn. intros ->. apply Hq. apply list_elem_of_fmap.
      exists (p, s). split; [reflexivity|exact Hin].
Qed.

Lemma parked_settle p r : preserves parked_well (settle p r).
Proof.
  intros w [Hlt Hnd].
  change ((settle p r w).2) with (exec (settle p r) w). rewrite settle_spec.
  destruct (list_find _ (pending w)) as [[? [? s]]|]; [|split; assumption].
  assert (H : parked_well (set_pending (filter (λ e, e.1 ≠ p) (pending w)) w)).
  { split; cbn.
    - intros q s' Hin. apply list_elem_of_filter in Hin as [_ Hin].
      exact (Hlt _ _ Hin).
    - apply NoDup_fst_filter, Hnd. }
  revert H. generalize (set_pending (filter (λ e, e.1 ≠ p) (pending w)) w).
  intros w0 H0.
  apply (preserves_exec parked_well (watchCallback_resume s r) w0);
    [|exact H0].
  pres_with fail; cbn; assumption.
Qed.

Lemma parked_step i : preserves parked_well (step opts ctx win i).
Proof.
  destruct i;
    pres_with ltac:(first [apply parked_suspend | apply parked_settle]);
    try (cbn; assumption);
    match goal with
    | H : parked_well _ |- _ =>
        destruct H as [Hlt Hnd]; split; cbn; [|exact Hnd];
        intros p' s' Hin; specialize (Hlt _ _ Hin); lia
    end.
Qed.

Lemma parked_create : preserves parked_well (createTurboResource opts ctx win).
Proof.
  pres_with ltac:(first [apply parked_suspend | apply parked_settle]);
    try (cbn; assumption);
    match goal with
    | H : parked_well _ |- _ =>
        destruct H as [Hlt Hnd]; split; cbn; [|exact Hnd];
        intros p' s' Hin; specialize (Hlt _ _ Hin); lia
    end.
Qed.

Lemma Reachable_parked w : Reachable opts ctx win w → parked_well w.
Proof.
  revert w. apply (Reachable_ind parked_well).
  - intros fn now. split; [intros p s Hin; inversion Hin|constructor].
  - apply parked_create.
  - apply parked_step.
Qed.

Lemma settle_parked w p s r :
  Reachable opts ctx win w → (p, s) ∈ pending w →
  exec (step opts ctx win (QuerySettled p r)) w =
  exec (watchCallback_resume s r)
    (set_pending (filter (λ e, e.1 ≠ p) (pending w)) w).
Proof.
  intros HR Hin. destruct (Reachable_parked w HR) as [_ Hnd].
  destruct (list_find_fst _ _ _ Hnd Hin) as [i Hi].
  cbn [step]. rewrite settle_spec, Hi. reflexivity.
Qed.

(** X10.  The result of a query of the watcher is applied whenever it
    arrives: when a parked run of the callback is resumed with a value,
    that value becomes the resource and the disposers of that run take
    the cleanup slot, whatever the key is by then; the key, the flag and
    the listeners are not looked at and not changed. *)
Theorem late_result_is_applied (w : World) (p : nat) (s : SubscriptionSet)
    (v : JsVal) :
  Reachable opts ctx win w → (p, s) ∈ pending w →
  let w' := exec (step opts ctx win (QuerySettled p (Returns v))) w in
  resource w' = v ∧
  option_map w_cleanup (watcher w') = option_map (λ _, Some s) (watcher w) ∧
  (∀ s', (p, s') ∉ pending w') ∧
  key w' = key w ∧ isRefetching w' = isRefetching w ∧
  subscriptions w' = subscriptions w ∧ listeners w' = listeners w ∧
  trace w' = trace w.
Proof.
  intros HR Hin. cbn zeta. rewrite (settle_parked w p s _ HR Hin). cbn.
  repeat split.
  - destruct (watcher w); reflexivity.
  - intros s' Hq. apply list_elem_of_filter in Hq as [Hne _]. cbn in Hne.
    congruence.
Qed.

(** X11.  When a query of the watcher rejects, the run of the callback
    ends at its [await]: the rejection is reported by the runtime and
    that is all.  The resource and the error slot keep their values,
    the cleanup slot is not given the disposers of that run, and its
    listeners stay registered. *)
Theorem rejected_query_leaves_the_binder_untouched (w : World) (p : nat)
    (s : SubscriptionSet) (e : JsVal) :
  Reachable opts ctx win w → (p, s) ∈ pending w →
  let w' := exec (step opts ctx win (QuerySettled p (Throws e))) w in
  trace w' = trace w ++ [ERejected e] ∧
  resource w' = resource w ∧ error w' = error w ∧
  isRefetching w' = isRefetching w ∧ watcher w' = watcher w ∧
  subscriptions w' = subscriptions w ∧ listeners w' = listeners w ∧
  ∀ s', (p, s') ∉ pending w'.
Proof.
  intros HR Hin. cbn zeta. rewrite (settle_parked w p s _ HR Hin). cbn.
  repeat split.
  intros s' Hq. apply list_elem_of_filter in Hq as [Hne _]. cbn in Hne.
  congruence.
Qed.

(** *** A rejected initial query *)

Lemma stillborn_step e t i w :
  stillborn e t w → stillborn e t (exec (step opts ctx win i) w).
Proof.
  intros (Hst & Hw & Hp & Hs & Hl & Hr & He & Hes & Hf & Ht).
  assert (H : stillborn e t w) by (repeat split; assumption).
  destruct i as [r|fn|p r|en k ev payload|ev|dt| |ops|item| |reason| ].
  - unfold step. rewrite exec_bind. unfold get. cbn [fst snd].
    rewrite Hst. exact H.
  - unfold step. rewrite exec_seq, job_unfold.
    change (watcher (exec (put (set_key fn)) w)) with (watcher w).
    rewrite Hw. exact H.
  - cbn [step]. rewrite settle_spec, Hp. exact H.
  - cbn [step]. rewrite dispatch_unheard by exact Hs. exact H.
  - cbn [step]. rewrite fire_unheard; [exact H|].
    unfold hearing. rewrite Hl. reflexivity.
  - exact H.
  - cbn [step]. rewrite errorJob_spec, He, Hes. exact H.
  - cbn [step]. rewrite whenRunning_spec, Hst. exact H.
  - cbn [step]. rewrite whenRunning_spec, Hst. exact H.
  - cbn [step]. rewrite whenRunning_spec, Hst. exact H.
  - cbn [step]. rewrite whenRunning_spec, Hst. exact H.
  - cbn [step]. rewrite whenRunning_spec, Hst. exact H.
Qed.

(** X12.  When the initial query rejects with [e], the promise of
    [createTurboResource] rejects with [e] and the binder stays inert
    whatever happens next: no watcher is installed, nothing is ever
    subscribed, no cell is written, and the initial query remains the
    only effect. *)
Theorem rejected_initial_query_is_final (fn : TurboVueKey) (now : Z)
    (s : string) (e : JsVal) (inputs : list Input) :
  active (computedKey fn) = Some s →
  let w := run opts ctx win (InitialSettled (Throws e) :: inputs)
             (create opts ctx win fn now) in
  stage w = Failed e ∧ watcher w = None ∧
  subscriptions w = [] ∧ listeners w = [] ∧
  resource w = VUndef ∧ error w = VUndef ∧ isRefetching w = false ∧
  trace w = [EQuery (facade opts ctx) s (queryOptions opts)].
Proof.
  intros H. cbn zeta. cbn [run fold_left].
  assert (H0 : stillborn e [EQuery (facade opts ctx) s (queryOptions opts)]
                 (exec (step opts ctx win (InitialSettled (Throws e)))
                    (create opts ctx win fn now))).
  { rewrite (create_active _ _ _ _ _ _ H). repeat split. }
  revert H0. generalize (exec (step opts ctx win (InitialSettled (Throws e)))
                           (create opts ctx win fn now)).
  induction inputs as [|i inputs IH]; intros w H0.
  - cbn. destruct H0 as (? & ? & ? & ? & ? & ? & ? & ? & ? & ?).
    repeat split; assumption.
  - cbn [fold_left]. apply IH, stillborn_step, H0.
Qed.

(** *** The queries of the binder *)

Lemma queried_emit fn base w e :
  queried_since opts ctx fn base w →
  queries [e] = [] ∨ (∃ q, queries [e] = [q] ∧ addressed opts ctx fn q) →
  queried_since opts ctx fn base (emitted e w).
Proof.
  intros (Hk & qs & Hq & Hg) He. split; [exact Hk|]. cbn.
  rewrite queries_app, Hq. destruct He as [->|(q & -> & Ha)].
  - exists qs. rewrite app_nil_r. auto.
  - exists (qs ++ [q]). rewrite app_assoc. split; [reflexivity|].
    intros q' Hin. apply elem_of_app in Hin as [Hin|Hin]; [auto|].
    apply elem_of_cons in Hin as [->|Hin]; [exact Ha|inversion Hin].
Qed.

Lemma queried_same fn base w w' :
  queried_since opts ctx fn base w →
  key w' = key w → queries (trace w') = queries (trace w) →
  queried_since opts ctx fn base w'.
Proof.
  intros (Hk & qs & Hq & Hg) Ek Eq. split; [congruence|].
  exists qs. rewrite Eq. auto.
Qed.

Lemma queried_refetch fn base ops :
  preserves (queried_since opts ctx fn base) (refetch opts ctx ops).
Proof.
  intros w H. destruct (active (computedKey (key w))) as [s|] eqn:Hs.
  - rewrite (refetch_active _ _ _ _ _ Hs). cbn [snd].
    apply queried_emit; [exact H|]. right. eexists. split; [reflexivity|].
    destruct H as [Hk _]. rewrite <- Hk.
    repeat split; [exact Hs|]. right. eauto.
  - rewrite (refetch_absent _ _ _ _ Hs). exact H.
Qed.

Lemma queried_job fn base :
  preserves (queried_since opts ctx fn base) (job opts ctx win).
Proof.
  intros w H. change ((job opts ctx win w).2) with (exec (job opts ctx win) w).
  rewrite job_unfold. destruct (watcher w) as [wt|]; [|exact H].
  destruct (w_active wt && _); [|exact H].
  pose proof (slot_registries (w_cleanup wt) w) as R.
  set (w0 := exec (from_option cleanup skip (w_cleanup wt)) w) in *.
  destruct R as (Rk & _ & _ & _ & _ & _ & _ & _ & _ & _ & _ & Rq).
  assert (H0 : queried_since opts ctx fn base w0)
    by (eapply queried_same; eauto).
  rewrite <- Rk.
  destruct (active (computedKey (key w0))) as [s|] eqn:Hs.
  - destruct (watchCallback_active opts ctx win _ s w0 Hs)
      as (_ & _ & Hk & _ & _ & _ & _ & _ & _ & _ & Hq & _).
    set (wc := exec (watchCallback opts ctx win (computedKey (key w0))) w0)
      in *.
    destruct H0 as (Hk0 & qs & Hq0 & Hg). split; [cbn; congruence|].
    exists (qs ++ [(facade opts ctx, s, queryOptions opts)]).
    change (trace (remember (computedKey (key w0)) wc)) with (trace wc).
    rewrite Hq, Hq0, app_assoc. split; [reflexivity|].
    intros q Hin. apply elem_of_app in Hin as [Hin|Hin]; [auto|].
    apply elem_of_cons in Hin as [->|Hin]; [|inversion Hin].
    rewrite <- Hk0. repeat split; [exact Hs|]. left. reflexivity.
  - rewrite (watchCallback_absent _ _ _ _ _ Hs).
    eapply queried_same; [exact H0| |]; reflexivity.
Qed.

Lemma queried_step fn base i :
  (∀ fn', i ≠ DepsChanged fn') →
  preserves (queried_since opts ctx fn base) (step opts ctx win i).
Proof.
  intros Hi. destruct i; try (exfalso; eapply Hi; reflexivity);
    pres_with ltac:(first [apply queried_job | apply queried_refetch]);
    try (apply queried_emit; [assumption|left; reflexivity]);
    try (eapply queried_same; [eassumption|reflexivity|reflexivity]).
Qed.

(** X13.  The binder queries nothing but its current key, and nothing
    but the resolved engine: the queries a step adds are addressed to
    the resolved engine, for the key that is active once the step is
    done, with the options [{ stale: true, ...options }] of the watcher
    or [{ stale: false, ...options, ...ops }] of a refetch. *)
Theorem queries_are_for_the_current_key (i : Input) (w : World) :
  let w' := exec (step opts ctx win i) w in
  ∃ qs, queries (trace w') = queries (trace w) ++ qs ∧
        ∀ q, q ∈ qs → addressed opts ctx (key w') q.
Proof.
  cbn zeta.
  assert (H0 : ∀ w0, queried_since opts ctx (key w0) (queries (trace w0)) w0).
  { intros w0. split; [reflexivity|]. exists []. rewrite app_nil_r.
    split; [reflexivity|]. intros q Hq. inversion Hq. }
  destruct (match i with DepsChanged fn => Some fn | _ => None end)
    as [fn|] eqn:Hi.
  - destruct i; try discriminate. injection Hi as ->.
    unfold step. rewrite exec_seq.
    change (exec (put (set_key fn)) w) with (set_key fn w).
    destruct (queried_job fn (queries (trace w)) (set_key fn w) (H0 _))
      as (Hk & qs & Hq & Hg).
    change ((job opts ctx win (set_key fn w)).2)
      with (exec (job opts ctx win) (set_key fn w)) in *.
    rewrite Hk. eauto.
  - destruct (queried_step (key w) (queries (trace w)) i) with (w := w)
      as (Hk & qs & Hq & Hg);
      [intros fn' ->; discriminate|apply H0|].
    change ((step opts ctx win i w).2) with (exec (step opts ctx win i) w)
      in *.
    rewrite Hk. eauto.
Qed.

(** *** Events *)

(** X14.  An event of the cache has the effect of one callback however
    many listeners hear it, and no effect when none does: [mutated] and
    [resolved] store the payload as the resource, [refetching] raises
    the flag, [resolved] and [error] lower it, [error] stores the
    payload in the error slot, [forgotten] clears the resource when
    [clearOnForget] is set; no event has an effect outside the binder or
    touches its listeners, its watcher or [lastFocus]. *)
Theorem event_runs_one_callback (e : Engine) (k : string) (ev : EventKind)
    (payload : JsVal) (w : World) :
  let w' := exec (dispatch opts ctx e k ev payload) w in
  (listening e k ev (subscriptions w) = [] → w' = w) ∧
  (listening e k ev (subscriptions w) ≠ [] →
   resource w' =
     match ev with
     | Mutated | Resolved => payload
     | Forgotten => if clearOnForget opts ctx then VUndef else resource w
     | Refetching | Error => resource w
     end ∧
   isRefetching w' =
     match ev with
     | Refetching => true
     | Resolved | Error => false
     | Mutated | Forgotten => isRefetching w
     end ∧
   error w' = match ev with Error => payload | _ => error w end) ∧
  trace w' = trace w ∧ subscriptions w' = subscriptions w ∧
  listeners w' = listeners w ∧ watcher w' = watcher w ∧
  pending w' = pending w ∧ lastFocus w' = lastFocus w ∧ key w' = key w.
Proof.
  cbn zeta. rewrite dispatch_spec.
  destruct (listening e k ev (subscriptions w)) as [|x l].
  - split; [reflexivity|]. split; [intros Hne; contradiction|].
    repeat split.
  - split; [discriminate|]. split.
    + intros _. destruct ev; cbn; try destruct (clearOnForget opts ctx);
        repeat split.
    + destruct ev; cbn; try destruct (clearOnForget opts ctx); repeat split.
Qed.

(** *** Runs in which every query resolves before the next change *)


Lemma resolveWatcher_same_binding v w :
  same_binding w (resolveWatcher opts ctx win v w).
Proof.
  unfold resolveWatcher. destruct (pending w) as [|[p s] l];
    [apply same_binding_refl|apply settle_same_binding].
Qed.

Lemma Bound_resolveWatcher v w :
  Bound opts ctx w → Bound opts ctx (resolveWatcher opts ctx win v w).
Proof.
  intros B. eapply Bound_same_binding; [exact B|].
  apply resolveWatcher_same_binding.
Qed.






End Invariants.

(** * Further properties of the staleness tracker *)

Lemma tracker_ok_create precision fn expiration now :
  tracker_ok (createStale precision fn expiration now).
Proof.
  split; [apply one_timer_create|]. split; [|split].
  - unfold createStale. cbn.
    destruct (active (computedKey fn)) as [k|]; [|cbn; lia].
    destruct (expiration !! k) as [x|]; [|cbn; lia]. cbn.
    destruct (Z.geb_spec (x - now) 0); lia.
  - reflexivity.
  - intros iv Hin. inversion Hin.
Qed.

Lemma poll_nonneg k t : 0 ≤ staleIn t → 0 ≤ staleIn (poll k t).
Proof.
  intros H. unfold poll. destruct (active k) as [s|]; [|exact H].
  destruct (t_expiration t !! s) as [x|]; [|exact H]. cbn.
  destruct (Z.geb_spec (x - t_clock t) 0); [lia|].
  destruct ((x - t_clock t <? 0) && (staleIn t >? 0)); lia.
Qed.

Lemma poll_frame k t :
  t_key (poll k t) = t_key t ∧ t_active (poll k t) = t_active t ∧
  t_old (poll k t) = t_old t ∧ t_intervals (poll k t) = t_intervals t ∧
  t_precision (poll k t) = t_precision t ∧
  t_cleanup (poll k t) = t_cleanup t.
Proof.
  unfold poll. destruct (active k) as [s|]; [|repeat split].
  destruct (t_expiration t !! s); repeat split.
Qed.

Lemma tracker_ok_step i t : tracker_ok t → tracker_ok (trackerStep i t).
Proof.
  intros (H1 & Hs & Ho & Hp).
  split; [apply one_timer_step, H1|].
  destruct i as [fn|k e|dt|n|].
  - (* a change of the reactive state *)
    unfold trackerStep, staleJob. cbn [t_active t_key t_old set_t_env].
    destruct (t_active t) eqn:Ha; [|repeat split; auto; discriminate].
    case_bool_decide as Hc.
    + destruct t as [k e c p st si a o cl ivs n].
      destruct cl as [id|]; cbn in *;
        (split; [exact Hs|]); (split; [reflexivity|]); intros iv Hin.
      * apply elem_of_app in Hin as [Hin|Hin].
        -- apply list_elem_of_filter in Hin as [_ Hin]. auto.
        -- apply elem_of_cons in Hin as [->|Hin]; [reflexivity|inversion Hin].
      * apply elem_of_app in Hin as [Hin|Hin]; [auto|].
        apply elem_of_cons in Hin as [->|Hin]; [reflexivity|inversion Hin].
    + split; [exact Hs|]. split; [|exact Hp]. cbn. intros _.
      rewrite <- Hc. reflexivity.
  - split; [exact Hs|]. split; [exact Ho|exact Hp].
  - split; [exact Hs|]. split; [exact Ho|exact Hp].
  - unfold trackerStep.
    destruct (list_find _ (t_intervals t)) as [[? iv]|];
      [|split; [exact Hs|]; split; [exact Ho|exact Hp]].
    destruct (poll_frame (iv_key iv) t) as (Ek & Ea & Eo & Ei & Ep & _).
    split; [apply poll_nonneg, Hs|]. rewrite Ek, Ea, Eo, Ei, Ep. auto.
  - unfold trackerStep, staleStop.
    destruct (t_active t) eqn:Ha;
      [|split; [exact Hs|]; split; [rewrite Ha; exact Ho|exact Hp]].
    destruct t as [k e c p st si a o cl ivs n].
    destruct cl as [id|]; cbn in *;
      (split; [exact Hs|]); (split; [discriminate|]); intros iv Hin;
      [|auto].
    apply list_elem_of_filter in Hin as [_ Hin]. auto.
Qed.

(** X16.  Whatever happens to a tracker made by [createStale], it runs
    at most one timer, of the precision asked for, and that timer polls
    the key the watcher saw last, which is the current key; the
    countdown [staleIn] is never negative. *)
Theorem tracker_keeps_one_timer_for_the_current_key (precision : Z)
    (fn : TurboVueKey) (expiration : gmap string Z) (now : Z)
    (inputs : list TrackerInput) :
  let t := trackerRun inputs (createStale precision fn expiration now) in
  (t_intervals t = [] ∨
   ∃ id, t_intervals t = [mkInterval id precision (computedKey (t_key t))] ∧
         t_cleanup t = Some id) ∧
  0 ≤ staleIn t.
Proof.
  cbn zeta.
  assert (H : tracker_ok (trackerRun inputs
                (createStale precision fn expiration now)) ∧
              t_precision (trackerRun inputs
                (createStale precision fn expiration now)) = precision).
  { generalize (tracker_ok_create precision fn expiration now).
    assert (Hp : t_precision (createStale precision fn expiration now)
                 = precision) by reflexivity.
    revert Hp. generalize (createStale precision fn expiration now).
    induction inputs as [|i inputs IH]; intros t Hp H; [auto|].
    cbn [trackerRun fold_left]. apply IH; [|apply tracker_ok_step, H].
    destruct i as [fn'|k e|dt|n|]; try exact Hp.
    - unfold trackerStep, staleJob. cbn [t_active set_t_env].
      destruct (t_active t); [|exact Hp].
      destruct (bool_decide _); [|exact Hp].
      destruct t as [k e c p st si a o cl ivs n]. destruct cl; exact Hp.
    - unfold trackerStep. destruct (list_find _ _) as [[? iv]|]; [|exact Hp].
      rewrite (proj1 (proj2 (proj2 (proj2 (proj2 (poll_frame _ _)))))).
      exact Hp.
    - unfold trackerStep, staleStop. destruct (t_active t); [|exact Hp].
      destruct t as [k e c p st si a o cl ivs n]. destruct cl; exact Hp. }
  destruct H as [(H1 & Hs & Ho & Hp) Hprec]. split; [|exact Hs].
  destruct H1 as [H1|(iv & Hi & Hc & Hk & Ha)]; [left; exact H1|].
  right. exists (iv_id iv). split; [|exact Hc].
  rewrite Hi. f_equal.
  assert (Epr : iv_precision iv = precision)
    by (rewrite (Hp iv) by (rewrite Hi; left); exact Hprec).
  assert (Ek : iv_key iv = computedKey (t_key (trackerRun inputs
                 (createStale precision fn expiration now))))
    by (rewrite Hk; apply Ho, Ha).
  destruct iv as [id p k]. cbn in *. congruence.
Qed.

Lemma tracker_ok_run inputs t : tracker_ok t → tracker_ok (trackerRun inputs t).
Proof.
  revert t. induction inputs as [|i inputs IH]; intros t H; [exact H|].
  cbn [trackerRun fold_left]. apply IH, tracker_ok_step, H.
Qed.

(** X17.  After a change of key the poll does its work: when the key
    changes to an active key that the cache dates at [x], the timer the
    tracker then starts, once fired after [dt] more milliseconds, sets
    [isStale] to whether [x] is past and [staleIn] to the time left
    until [x], or 0. *)
Theorem poll_works_after_a_key_change (precision : Z) (fn0 : TurboVueKey)
    (expiration : gmap string Z) (now : Z) (inputs : list TrackerInput)
    (fn : TurboVueKey) (s : string) (x : Z) (dt : N) :
  let t := trackerRun inputs (createStale precision fn0 expiration now) in
  t_active t = true →
  computedKey fn ≠ computedKey (t_key t) →
  active (computedKey fn) = Some s →
  t_expiration t !! s = Some x →
  let t' := trackerRun [TDepsChanged fn; TElapse dt; TFires (t_fresh t)] t in
  isStale t' = bool_decide (x < t_clock t + Z.of_N dt) ∧
  staleIn t' = Z.max 0 (x - (t_clock t + Z.of_N dt)).
Proof.
  cbn zeta.
  pose proof (tracker_ok_run inputs _
                (tracker_ok_create precision fn0 expiration now)) as Hok.
  generalize dependent (trackerRun inputs
                          (createStale precision fn0 expiration now)).
  intros t (H1 & Hs & Ho & _) Ha Hc Hk He.
  assert (Hc' : t_old t ≠ computedKey fn) by (rewrite (Ho Ha); congruence).
  destruct (staleJob_restarts fn t H1 Ha Hc') as [Hi _].
  set (t1 := trackerStep (TDepsChanged fn) t) in *.
  assert (F : staleIn t1 = staleIn t ∧ t_expiration t1 = t_expiration t ∧
              t_clock t1 = t_clock t).
  { unfold t1, trackerStep, staleJob. cbn [t_active set_t_env].
    rewrite Ha. cbn [t_old t_key set_t_env].
    rewrite bool_decide_true by exact Hc'.
    destruct t as [k e c p st si a o cl ivs n]. destruct cl; repeat split. }
  destruct F as (Fs & Fe & Fc).
  cbn [trackerRun fold_left]. fold t1.
  set (t2 := trackerStep (TElapse dt) t1).
  assert (E : trackerStep (TFires (t_fresh t)) t2 = poll (computedKey fn) t2).
  { unfold trackerStep at 1. change (t_intervals t2) with (t_intervals t1).
    rewrite Hi. cbn. rewrite decide_True by reflexivity. reflexivity. }
  rewrite E.
  destruct (poll_recomputes (computedKey fn) s x t2 Hk) as [P1 P2].
  - change (t_expiration t2) with (t_expiration t1). congruence.
  - change (staleIn t2) with (staleIn t1). lia.
  - rewrite P1, P2. change (t_clock t2) with (t_clock t1 + Z.of_N dt).
    rewrite Fc. auto.
Qed.

(** X18.  A poll never marks a key stale for being unknown: when the
    timer's key is absent, or active but not dated by the cache (never
    fetched, or forgotten), firing the timer changes nothing, whereas
    [createStale] called for such a key starts from [isStale = true],
    [staleIn = 0]. *)
Theorem undated_key_freezes_the_poll (fn : TurboVueKey)
    (expiration : gmap string Z) :
  active (computedKey fn) ≫= (expiration !!.) = None →
  (∀ precision now,
     let t0 := createStale precision fn expiration now in
     isStale t0 = true ∧ staleIn t0 = 0) ∧
  (∀ t i id precision,
     t_expiration t = expiration →
     list_find (λ iv, iv_id iv = id) (t_intervals t)
     = Some (i, mkInterval id precision (computedKey fn)) →
     trackerStep (TFires id) t = t).
Proof.
  intros H. split.
  - intros precision now. cbn zeta. unfold createStale.
    destruct (active (computedKey fn)) as [k|]; [|split; reflexivity].
    cbn in H. rewrite H. split; reflexivity.
  - intros t i id precision He Hf. unfold trackerStep. rewrite Hf.
    unfold poll. cbn [iv_key].
    destruct (active (computedKey fn)) as [k|]; [|reflexivity].
    cbn in H. rewrite He, H. reflexivity.
Qed.

Lemma stopped_step i t :
  t_active t = false → t_intervals t = [] →
  let t' := trackerStep i t in
  t_active t' = false ∧ t_intervals t' = [] ∧
  isStale t' = isStale t ∧ staleIn t' = staleIn t.
Proof.
  intros Ha Hi. cbn zeta. destruct i as [fn|k e|dt|n|]; cbn.
  - unfold staleJob. cbn. rewrite Ha. auto.
  - auto.
  - auto.
  - rewrite Hi. cbn. auto.
  - unfold staleStop. rewrite Ha. auto.
Qed.

(** X19.  Disposal of a tracker is final: once its owner is unmounted
    no timer runs and the watcher is stopped, and whatever happens
    afterwards, key changes included, no timer is started again and
    [isStale] and [staleIn] keep the values they had. *)
Theorem unmounted_tracker_stays_stopped (precision : Z) (fn : TurboVueKey)
    (expiration : gmap string Z) (now : Z)
    (before after : list TrackerInput) :
  let t := trackerRun before (createStale precision fn expiration now) in
  let t' := trackerRun (TUnmounted :: after) t in
  t_intervals t' = [] ∧ t_active t' = false ∧
  isStale t' = isStale t ∧ staleIn t' = staleIn t.
Proof.
  cbn zeta.
  pose proof (tracker_ok_run before _
                (tracker_ok_create precision fn expiration now)) as Hok.
  generalize dependent (trackerRun before
                          (createStale precision fn expiration now)).
  intros t (H1 & _). cbn [trackerRun fold_left].
  destruct (staleStop_stops t H1) as (Hi & Ha & _).
  assert (Hp : isStale (trackerStep TUnmounted t) = isStale t ∧
               staleIn (trackerStep TUnmounted t) = staleIn t).
  { unfold trackerStep, staleStop. destruct (t_active t); [|auto].
    destruct t as [k e c p st si a o cl ivs n]. destruct cl; auto. }
  destruct Hp as [<- <-].
  revert Hi Ha. generalize (trackerStep TUnmounted t). clear.
  induction after as [|i after IH]; intros t Hi Ha; [auto|].
  cbn [fold_left].
  destruct (stopped_step i t Ha Hi) as (Ha' & Hi' & <- & <-).
  apply IH; assumption.
Qed.

(** * Further properties: availability, expiration, options *)

Section MoreFacts.
Variables opts ctx : option JsObj.
Variable win : bool.

(** X20.  A change of key clears nothing: the resource and the error
    slot keep the values of the key that was left until a query
    resolves or an event arrives; and when, in a steady world, the key
    changes to another active key and the query this starts resolves
    with [v], the resource is [v]. *)
Theorem key_change_keeps_the_resource_until_resolved (fn : TurboVueKey)
    (w : World) :
  (resource (exec (step opts ctx win (DepsChanged fn)) w) = resource w ∧
   error (exec (step opts ctx win (DepsChanged fn)) w) = error w) ∧
  (∀ s v, Steady opts ctx win w →
     computedKey fn ≠ computedKey (key w) →
     active (computedKey fn) = Some s →
     resource (changeAndResolve opts ctx win (fn, v) w) = v).
Proof.
  split.
  - split.
    + apply (preserves_exec (λ w', resource w' = resource w));
        [|reflexivity]. pres_with fail; cbn; assumption.
    + apply (preserves_exec (λ w', error w' = error w)); [|reflexivity].
      pres_with fail; cbn; assumption.
  - intros s v (HS & HB & _) Hne Hs.
    assert (HS' := HS). destruct HS' as (_ & wt & Hw & Ha & _).
    destruct (HB wt Hw Ha) as [Ho _].
    assert (Hc : w_old wt ≠ Some (computedKey fn)) by congruence.
    destruct (settled_key_change opts ctx win fn w wt HS Hw Hc)
      as (_ & _ & Hcase).
    rewrite Hs in Hcase. destruct Hcase as (_ & p & set & Hp & _).
    unfold changeAndResolve, resolveWatcher. cbn [fst snd]. rewrite Hp.
    cbn [step]. rewrite (settle_only _ _ _ _ Hp). reflexivity.
Qed.

(** X21.  The availability signal agrees with the throttle of the focus
    trigger.  When a poll reports [isAvailable = false], a focus event
    at that instant is swallowed; when it reports [true], a focus event
    at that instant, with a listener registered and a key active,
    issues exactly one refetch query for the current key and moves
    [lastFocus] to the present. *)
Theorem availability_agrees_with_the_throttle (w : World)
    (a : Availability) :
  let a' := availabilityPoll opts ctx w a in
  (isAvailable a' = false → exec (fire opts ctx Focus) w = w) ∧
  (isAvailable a' = true →
   0 ≤ focusInterval opts ctx →
   ∀ s, active (computedKey (key w)) = Some s →
        hearing Focus w ≠ [] →
        queries (trace (exec (fire opts ctx Focus) w)) =
          queries (trace w) ++
          [(facade opts ctx, s, refetchOptions opts None)] ∧
        lastFocus (exec (fire opts ctx Focus) w) = clock w).
Proof.
  cbn zeta. unfold availabilityPoll. cbn [isAvailable]. split.
  - intros H. apply fire_focus_throttled.
    destruct (Z.gtb_spec (clock w - lastFocus w) (focusInterval opts ctx));
      [discriminate|lia].
  - intros H Hfi s Hs Hh. unfold fire. rewrite exec_bind. unfold get.
    cbn [fst snd]. unfold hearing in Hh.
    destruct (filter (λ l, l.1 = Focus) (listeners w)) as [|x l];
      [contradiction|].
    rewrite for_each_cons, rawHandler_spec, H, refetchListener_spec.
    cbn [key set_lastFocus]. rewrite Hs.
    rewrite handlers_throttled by (cbn; lia).
    cbn. rewrite queries_snoc. auto.
Qed.

Lemma nearest_double_exact x : Z.abs x < 2 ^ 53 → nearest_double x = x.
Proof.
  intros H. unfold nearest_double.
  destruct (Z.leb_spec (Z.log2 (Z.abs x) - 52) 0) as [_|Hd]; [reflexivity|].
  exfalso.
  assert (Hm : 0 < Z.abs x).
  { destruct (Z.abs x) eqn:E; cbn in Hd; lia. }
  apply (Z.log2_lt_pow2 _ 53 Hm) in H. lia.
Qed.

Lemma nearest_double_negative x : x < 0 → nearest_double x < 0.
Proof.
  intros H. unfold nearest_double.
  destruct (Z.leb_spec (Z.log2 (Z.abs x) - 52) 0) as [_|Hd]; [exact H|].
  set (m := Z.abs x) in *. set (d := Z.log2 m - 52) in *.
  assert (Hm : 0 < m) by (unfold m; lia).
  assert (Hu : 0 < 2 ^ d) by (apply Z.pow_pos_nonneg; lia).
  assert (Hle : 2 ^ d ≤ m).
  { destruct (Z.log2_spec m Hm) as [Hl _].
    assert (2 ^ d ≤ 2 ^ Z.log2 m) by (apply Z.pow_le_mono_r; lia). lia. }
  assert (Hq : 1 ≤ m / 2 ^ d) by (apply Z.div_le_lower_bound; lia).
  rewrite (Z.sgn_neg x H).
  destruct (2 * (m mod 2 ^ d) <? 2 ^ d); [nia|].
  destruct (2 ^ d <? 2 * (m mod 2 ^ d)); [nia|].
  destruct (Z.even (m / 2 ^ d)); nia.
Qed.

(** X22.  The countdown of the availability signal.  Its initial value
    is the whole interval, whatever time has passed since [lastFocus].
    Every poll sets it to the time left until the trigger is available,
    as the nearest number JS can hold, or to 0 when that is negative;
    the time left is exact while it is below [2 ^ 53] in magnitude.
    [isAvailable] implies a countdown of 0, and at the instant the
    interval has exactly elapsed the countdown is 0 while [isAvailable]
    is still false.  In the exact range and with an interval that is
    not negative, the countdown stays within the interval as long as
    the clock is not behind [lastFocus], and exceeds it when the clock
    has been set back.  Once the owner is unmounted the timer is
    cleared and a firing changes nothing. *)
Theorem availability_countdown (precision : Z) (w0 w : World)
    (a : Availability) :
  0 ≤ availableIn a →
  let a' := availabilityPoll opts ctx w a in
  let remaining := focusInterval opts ctx - (clock w - lastFocus w) in
  availableIn (createFocusAvailable opts ctx precision w0)
  = focusInterval opts ctx ∧
  availableIn a' = Z.max 0 (nearest_double remaining) ∧
  (Z.abs remaining < 2 ^ 53 → availableIn a' = Z.max 0 remaining) ∧
  (isAvailable a' = true → availableIn a' = 0) ∧
  (remaining = 0 → availableIn a' = 0 ∧ isAvailable a' = false) ∧
  (Z.abs remaining < 2 ^ 53 → 0 ≤ focusInterval opts ctx →
   (lastFocus w ≤ clock w → 0 ≤ availableIn a' ≤ focusInterval opts ctx) ∧
   (clock w < lastFocus w → focusInterval opts ctx < availableIn a')) ∧
  availabilityFires opts ctx w (availabilityUnmounted a)
  = availabilityUnmounted a.
Proof.
  intros Ha. cbn zeta. split; [reflexivity|].
  unfold availabilityPoll. cbn [availableIn isAvailable].
  set (fi := focusInterval opts ctx) in *.
  set (el := clock w - lastFocus w).
  set (n := nearest_double (fi - el)).
  assert (E : (if n >=? 0 then n
               else if (n <? 0) && (availableIn a >? 0) then 0
                    else availableIn a) = Z.max 0 n).
  { destruct (Z.geb_spec n 0); [lia|].
    destruct (Z.ltb_spec n 0); [|lia].
    destruct (Z.gtb_spec (availableIn a) 0); cbn; lia. }
  rewrite E. split; [reflexivity|].
  assert (X : Z.abs (fi - el) < 2 ^ 53 → n = fi - el)
    by (intros H; apply nearest_double_exact, H).
  split; [intros H; rewrite (X H); reflexivity|].
  split; [|split; [|split]].
  - intros H. destruct (Z.gtb_spec el fi); [|discriminate].
    assert (n < 0) by (apply nearest_double_negative; lia). lia.
  - intros H. rewrite X by (rewrite H; reflexivity). split; [lia|].
    destruct (Z.gtb_spec el fi); [lia|reflexivity].
  - intros H Hfi. rewrite (X H). unfold el. split; intros Hc; lia.
  - reflexivity.
Qed.

(** X23.  [createStale] reads the module-level engine.  For a binder
    with no engine instance configured, its initial pair is the one the
    binder's own [expiration()] action gives: stale with a countdown of
    0 when that action returns [undefined], else stale exactly when the
    date returned is past, with the time left until it, or 0. *)
Theorem createStale_starts_from_expiration (expirations : Engine → gmap string Z)
    (precision : Z) (w : World) :
  facade opts ctx = ModuleEngine →
  let t := createStaleOf expirations precision w in
  (isStale t, staleIn t) =
  match localExpiration opts ctx expirations w with
  | Some x => (bool_decide (x < clock w), Z.max 0 (x - clock w))
  | None => (true, 0)
  end.
Proof.
  intros Hf. cbn zeta. unfold createStaleOf, localExpiration. rewrite Hf.
  destruct (createStale_initial precision (key w) (expirations ModuleEngine)
              (clock w)) as [-> _].
  destruct (active (computedKey (key w))); reflexivity.
Qed.

End MoreFacts.

Lemma member_None (o : option JsObj) (f : string) :
  member o f = None ↔
  o = None ∨ ∃ m, o = Some m ∧
                  (m !! f = None ∨ m !! f = Some VUndef ∨ m !! f = Some VNull).
Proof.
  destruct o as [m|]; cbn; [|intuition].
  split.
  - intros H. right. exists m. split; [reflexivity|].
    destruct (m !! f) as [[]|]; try discriminate; auto.
  - intros [H|(m' & [= <-] & [H|[H|H]])]; [discriminate|..];
      rewrite H; reflexivity.
Qed.

(** X24.  Precedence of the options.  An option given at the call site
    beats the context, the context beats the default, and the defaults
    are: the module-level engine, both triggers on, an interval of 5000
    ms, no clearing on forget.  When the call site does not give an
    option, the value the context gives is the one used.  An option
    counts as given unless it is missing, [undefined] or [null]:
    [false] given at the call site switches a trigger off whatever the
    context says. *)
Theorem options_precedence (o c : option JsObj) :
  settings None None = (ModuleEngine, true, true, 5000, false) ∧
  ((∀ f, f ∈ settingNames → member o f = None) →
   settings o c = settings None c) ∧
  ((∀ f, f ∈ settingNames → member c f = None) →
   settings o c = settings o None) ∧
  ((∀ r, member o "turbo" = Some (VObj r) → facade o c = InstanceEngine r) ∧
   (∀ v, member o "refetchOnFocus" = Some v →
         refetchOnFocus o c = js_truthy v) ∧
   (∀ v, member o "refetchOnConnect" = Some v →
         refetchOnConnect o c = js_truthy v) ∧
   (∀ n, member o "focusInterval" = Some (VNum n) → focusInterval o c = n) ∧
   (∀ v, member o "clearOnForget" = Some v →
         clearOnForget o c = js_truthy v)) ∧
  ((∀ r, member o "turbo" = None → member c "turbo" = Some (VObj r) →
         facade o c = InstanceEngine r) ∧
   (∀ v, member o "refetchOnFocus" = None →
         member c "refetchOnFocus" = Some v →
         refetchOnFocus o c = js_truthy v) ∧
   (∀ v, member o "refetchOnConnect" = None →
         member c "refetchOnConnect" = Some v →
         refetchOnConnect o c = js_truthy v) ∧
   (∀ n, member o "focusInterval" = None →
         member c "focusInterval" = Some (VNum n) →
         focusInterval o c = n) ∧
   (∀ v, member o "clearOnForget" = None →
         member c "clearOnForget" = Some v →
         clearOnForget o c = js_truthy v)) ∧
  (∀ m f, member (Some m) f = None ↔
          m !! f = None ∨ m !! f = Some VUndef ∨ m !! f = Some VNull).
Proof.
  split; [reflexivity|]. split; [|split; [|split; [|split]]].
  - intros H. unfold settings, facade, turboOf, refetchOnFocus,
      refetchOnConnect, focusInterval, clearOnForget.
    rewrite !H by (unfold settingNames; set_solver). reflexivity.
  - intros H. unfold settings, facade, turboOf, refetchOnFocus,
      refetchOnConnect, focusInterval, clearOnForget.
    rewrite !H by (unfold settingNames; set_solver).
    destruct (member o "turbo") as [[]|]; reflexivity.
  - unfold facade, turboOf, refetchOnFocus, refetchOnConnect, focusInterval,
      clearOnForget.
    repeat split; intros ? H; rewrite H; reflexivity.
  - unfold facade, turboOf, refetchOnFocus, refetchOnConnect, focusInterval,
      clearOnForget.
    repeat split; intros ? H1 H2; rewrite H1, H2; reflexivity.
  - intros m f. split.
    + intros H. rewrite member_None in H.
      destruct H as [H|(m' & [= <-] & H)]; [discriminate|exact H].
    + intros H. apply member_None. right. eauto.
Qed.

(** The context decides where the call site is silent, and only there. *)
Lemma options_precedence_sample :
  settings (Some {[ "refetchOnFocus" := VBool false ]})
    (Some {[ "refetchOnFocus" := VBool true;
             "refetchOnConnect" := VBool false;
             "focusInterval" := VNum 250;
             "clearOnForget" := VBool true;
             "turbo" := VObj 7 ]})
  = (InstanceEngine 7, false, false, 250, true).
Proof. vm_compute. reflexivity. Qed.

(** ** Instances of the further properties *)

Lemma awaitingA_Reachable : Reachable None None true awaitingA.
Proof. exists keyA, 0, [InitialSettled (Returns (VNum 1))]. reflexivity. Qed.

Lemma settledA_Reachable : Reachable None None true settledA.
Proof.
  exists keyA, 0,
    [InitialSettled (Returns (VNum 1)); QuerySettled 7 (Returns (VNum 1))].
  unfold settledA, awaitingA, run. cbn [fold_left]. reflexivity.
Qed.

Lemma disabled_trigger_instance :
  enabled (Some {[ "refetchOnFocus" := VBool false ]}) None true Focus = false ∧
  let w := run (Some {[ "refetchOnFocus" := VBool false ]}) None true
             [InitialSettled (Returns (VNum 1))]
             (create (Some {[ "refetchOnFocus" := VBool false ]}) None true
                keyA 0) in
  hearing Focus w = [] ∧
  exec (fire (Some {[ "refetchOnFocus" := VBool false ]}) None Focus) w = w.
Proof.
  assert (H : enabled (Some {[ "refetchOnFocus" := VBool false ]}) None true
                Focus = false) by (vm_compute; reflexivity).
  split; [exact H|].
  apply (disabled_trigger_never_listens
           (Some {[ "refetchOnFocus" := VBool false ]}) None true Focus _ H).
  exists keyA, 0, [InitialSettled (Returns (VNum 1))]. reflexivity.
Defined.

Lemma focus_right_after_creation_instance :
  Z.of_N 5000 ≤ focusInterval None None ∧
  let w1 := exec (createTurboResource_rest None None true)
              (create None None true keyA 0) in
  lastFocus w1 = clock (create None None true keyA 0) ∧
  exec (fire None None Focus) (exec (step None None true (Elapse 5000)) w1)
  = exec (step None None true (Elapse 5000)) w1.
Proof.
  assert (H : Z.of_N 5000 ≤ focusInterval None None)
    by (vm_compute; discriminate).
  split; [exact H|].
  apply (focus_right_after_creation_is_swallowed None None true
           (create None None true keyA 0) 5000 H).
Defined.

Lemma unsubscribe_of_settledA_instance :
  Settled settledA ∧
  let w1 := exec unsubscribe settledA in
  subscriptions w1 = [] ∧ listeners w1 = [] ∧
  (∀ e k ev payload, exec (dispatch None None e k ev payload) w1 = w1) ∧
  (∀ ev, exec (fire None None ev) w1 = w1).
Proof.
  split; [exact settledA_Settled|].
  apply (unsubscribe_of_a_settled_binder_silences_it None None settledA
           settledA_Settled).
Defined.

Lemma same_key_instance :
  Reachable None None true (create None None true keyAbsent 0) ∧
  computedKey keyThrowing = computedKey (key (create None None true keyAbsent 0)) ∧
  exec (step None None true (DepsChanged keyThrowing))
    (create None None true keyAbsent 0)
  = set_key keyThrowing (create None None true keyAbsent 0).
Proof.
  assert (H : Reachable None None true (create None None true keyAbsent 0))
    by (exists keyAbsent, 0, []; reflexivity).
  split; [exact H|]. split; [reflexivity|].
  apply (same_key_is_no_transition None None true keyThrowing _ H).
  reflexivity.
Defined.

Lemma absent_key_instance :
  active (computedKey keyThrowing) = None ∧
  let w' := exec (step None None true (DepsChanged keyThrowing)) settledA in
  queries (trace w') = queries (trace settledA) ∧
  pending w' = pending settledA ∧
  (∀ sub, sub ∈ subscriptions w' → sub ∈ subscriptions settledA) ∧
  (∀ l, l ∈ listeners w' → l ∈ listeners settledA) ∧
  resource w' = resource settledA ∧ error w' = error settledA.
Proof.
  split; [reflexivity|].
  apply (absent_key_subscribes_and_queries_nothing None None true keyThrowing
           settledA eq_refl).
Defined.

Lemma late_result_instance :
  let s := mkSet (DUnsubscribe 0) (DUnsubscribe 1) (DUnsubscribe 2)
             (DUnsubscribe 3) (DUnsubscribe 4) (DRemoveListener Focus 5)
             (DRemoveListener Online 6) in
  pending awaitingA = [(7%nat, s)] ∧
  let w' := exec (step None None true (QuerySettled 7 (Returns (VNum 2))))
              awaitingA in
  resource w' = VNum 2 ∧
  option_map w_cleanup (watcher w') =
    option_map (λ _, Some s) (watcher awaitingA) ∧
  (∀ s', (7%nat, s') ∉ pending w') ∧
  key w' = key awaitingA ∧ isRefetching w' = isRefetching awaitingA ∧
  subscriptions w' = subscriptions awaitingA ∧
  listeners w' = listeners awaitingA ∧
  trace w' = trace awaitingA.
Proof.
  cbv zeta.
  assert (H : pending awaitingA =
              [(7%nat, mkSet (DUnsubscribe 0) (DUnsubscribe 1) (DUnsubscribe 2)
                         (DUnsubscribe 3) (DUnsubscribe 4)
                         (DRemoveListener Focus 5) (DRemoveListener Online 6))])
    by (vm_compute; reflexivity).
  split; [exact H|].
  apply (late_result_is_applied None None true awaitingA 7 _ (VNum 2)
           awaitingA_Reachable).
  rewrite H. apply list_elem_of_here.
Defined.

Lemma rejected_query_instance :
  let s := mkSet (DUnsubscribe 0) (DUnsubscribe 1) (DUnsubscribe 2)
             (DUnsubscribe 3) (DUnsubscribe 4) (DRemoveListener Focus 5)
             (DRemoveListener Online 6) in
  pending awaitingA = [(7%nat, s)] ∧
  let w' := exec (step None None true (QuerySettled 7 (Throws (VStr "down"))))
              awaitingA in
  trace w' = trace awaitingA ++ [ERejected (VStr "down")] ∧
  resource w' = resource awaitingA ∧ error w' = error awaitingA ∧
  isRefetching w' = isRefetching awaitingA ∧ watcher w' = watcher awaitingA ∧
  subscriptions w' = subscriptions awaitingA ∧
  listeners w' = listeners awaitingA ∧
  ∀ s', (7%nat, s') ∉ pending w'.
Proof.
  cbv zeta.
  assert (H : pending awaitingA =
              [(7%nat, mkSet (DUnsubscribe 0) (DUnsubscribe 1) (DUnsubscribe 2)
                         (DUnsubscribe 3) (DUnsubscribe 4)
                         (DRemoveListener Focus 5) (DRemoveListener Online 6))])
    by (vm_compute; reflexivity).
  split; [exact H|].
  apply (rejected_query_leaves_the_binder_untouched None None true awaitingA 7
           (mkSet (DUnsubscribe 0) (DUnsubscribe 1) (DUnsubscribe 2)
              (DUnsubscribe 3) (DUnsubscribe 4) (DRemoveListener Focus 5)
              (DRemoveListener Online 6))
           (VStr "down") awaitingA_Reachable).
  rewrite H. apply list_elem_of_here.
Defined.

Lemma rejected_initial_query_instance :
  active (computedKey keyA) = Some "A" ∧
  let w := run None None true
             [InitialSettled (Throws (VStr "down")); DepsChanged keyB;
              WindowFires Focus; CallRefetch None]
             (create None None true keyA 0) in
  stage w = Failed (VStr "down") ∧ watcher w = None ∧
  subscriptions w = [] ∧ listeners w = [] ∧
  resource w = VUndef ∧ error w = VUndef ∧ isRefetching w = false ∧
  trace w = [EQuery (facade None None) "A" (queryOptions None)].
Proof.
  split; [reflexivity|].
  apply (rejected_initial_query_is_final None None true keyA 0 "A"
           (VStr "down") [DepsChanged keyB; WindowFires Focus; CallRefetch None]
           eq_refl).
Defined.

Lemma poll_after_key_change_instance :
  let t := trackerRun []
             (createStale 100 keyA {[ "A" := 1000; "B" := 3000 ]} 0) in
  (t_active t = true ∧ computedKey keyB ≠ computedKey (t_key t) ∧
   active (computedKey keyB) = Some "B" ∧
   t_expiration t !! "B" = Some 3000) ∧
  let t' := trackerRun [TDepsChanged keyB; TElapse 100; TFires (t_fresh t)] t in
  isStale t' = bool_decide (3000 < t_clock t + Z.of_N 100) ∧
  staleIn t' = Z.max 0 (3000 - (t_clock t + Z.of_N 100)).
Proof.
  cbv zeta.
  assert (H1 : t_active (trackerRun []
                 (createStale 100 keyA {[ "A" := 1000; "B" := 3000 ]} 0))
               = true) by reflexivity.
  assert (H2 : computedKey keyB ≠ computedKey (t_key (trackerRun []
                 (createStale 100 keyA {[ "A" := 1000; "B" := 3000 ]} 0))))
    by (vm_compute; discriminate).
  assert (H3 : active (computedKey keyB) = Some "B") by reflexivity.
  assert (H4 : t_expiration (trackerRun []
                 (createStale 100 keyA {[ "A" := 1000; "B" := 3000 ]} 0))
               !! "B" = Some 3000) by (vm_compute; reflexivity).
  split; [auto|].
  apply (poll_works_after_a_key_change 100 keyA {[ "A" := 1000; "B" := 3000 ]}
           0 [] keyB "B" 3000 100 H1 H2 H3 H4).
Defined.

Lemma undated_key_instance :
  active (computedKey keyB) ≫= (({[ "A" := 1000 ]} : gmap string Z) !!.) = None ∧
  (∀ precision now,
     let t0 := createStale precision keyB {[ "A" := 1000 ]} now in
     isStale t0 = true ∧ staleIn t0 = 0) ∧
  (∀ t i id precision,
     t_expiration t = {[ "A" := 1000 ]} →
     list_find (λ iv, iv_id iv = id) (t_intervals t)
     = Some (i, mkInterval id precision (computedKey keyB)) →
     trackerStep (TFires id) t = t).
Proof.
  assert (H : active (computedKey keyB) ≫=
              (({[ "A" := 1000 ]} : gmap string Z) !!.) = None)
    by (vm_compute; reflexivity).
  split; [exact H|].
  apply (undated_key_freezes_the_poll keyB {[ "A" := 1000 ]} H).
Defined.

Lemma availability_countdown_instance :
  0 ≤ availableIn (createFocusAvailable None None 100 settledA) ∧
  let w := run None None true [Elapse 2000] settledA in
  let a' := availabilityPoll None None w
              (createFocusAvailable None None 100 settledA) in
  let remaining := focusInterval None None - (clock w - lastFocus w) in
  availableIn (createFocusAvailable None None 100 settledA)
  = focusInterval None None ∧
  availableIn a' = Z.max 0 (nearest_double remaining) ∧
  (Z.abs remaining < 2 ^ 53 → availableIn a' = Z.max 0 remaining) ∧
  (isAvailable a' = true → availableIn a' = 0) ∧
  (remaining = 0 → availableIn a' = 0 ∧ isAvailable a' = false) ∧
  (Z.abs remaining < 2 ^ 53 → 0 ≤ focusInterval None None →
   (lastFocus w ≤ clock w → 0 ≤ availableIn a' ≤ focusInterval None None) ∧
   (clock w < lastFocus w → focusInterval None None < availableIn a')) ∧
  availabilityFires None None w
    (availabilityUnmounted (createFocusAvailable None None 100 settledA))
  = availabilityUnmounted (createFocusAvailable None None 100 settledA).
Proof.
  assert (H : 0 ≤ availableIn (createFocusAvailable None None 100 settledA))
    by (vm_compute; discriminate).
  split; [exact H|].
  apply (availability_countdown None None 100 settledA
           (run None None true [Elapse 2000] settledA)
           (createFocusAvailable None None 100 settledA) H).
Defined.

(** An interval of [2 ^ 60] ms, one millisecond after the last focus:
    the countdown is [2 ^ 60], the double nearest to [2 ^ 60 - 1]. *)
Lemma availability_countdown_rounds :
  let opts : option JsObj := Some {[ "focusInterval" := VNum (2 ^ 60) ]} in
  let w := set_clock 1 (set_lastFocus 0 (boot keyA 0)) in
  availableIn (availabilityPoll opts None w
                 (createFocusAvailable opts None 100 w)) = 2 ^ 60.
Proof. vm_compute. reflexivity. Qed.

Lemma createStale_of_settledA_instance :
  facade None None = ModuleEngine ∧
  let t := createStaleOf (λ _, {[ "A" := 1000 ]}) 100 settledA in
  (isStale t, staleIn t) =
  match localExpiration None None (λ _, {[ "A" := 1000 ]}) settledA with
  | Some x => (bool_decide (x < clock settledA), Z.max 0 (x - clock settledA))
  | None => (true, 0)
  end.
Proof.
  split; [reflexivity|].
  apply (createStale_starts_from_expiration None None
           (λ _, {[ "A" := 1000 ]}) 100 settledA eq_refl).
Defined.

(** * The re-throw of errors and the queries of the creation *)

Section Revisited.
Variables opts ctx : option JsObj.
Variable win : bool.

(** ** The error slot and its watcher *)

(** Nothing but a flush throws through the watcher on the error slot or
    changes the value that watcher has seen. *)
Lemma quiet_step i w :
  i ≠ Flush →
  rethrown (trace (exec (step opts ctx win i) w)) = rethrown (trace w) ∧
  errorSeen (exec (step opts ctx win i) w) = errorSeen w.
Proof.
  intros Hi. split.
  - apply (preserves_exec (λ w', rethrown (trace w') = rethrown (trace w)));
      [|reflexivity].
    destruct i; try congruence;
      pres; cbn; rewrite ?rethrown_app, ?app_nil_r; assumption.
  - apply (preserves_exec (λ w', errorSeen w' = errorSeen w)); [|reflexivity].
    destruct i; try congruence; pres; cbn; assumption.
Qed.

Lemma quiet_run later w :
  Forall (λ i, i ≠ Flush) later →
  rethrown (trace (run opts ctx win later w)) = rethrown (trace w) ∧
  errorSeen (run opts ctx win later w) = errorSeen w.
Proof.
  intros H. revert w. induction H as [|i later Hi _ IH]; intros w; [auto|].
  unfold run. cbn [fold_left].
  destruct (IH (exec (step opts ctx win i) w)) as [E1 E2].
  unfold run in E1, E2. rewrite E1, E2. apply quiet_step, Hi.
Qed.

(** Nothing but an [error] event changes the error slot. *)
Lemma error_kept_step i w :
  (∀ e k p, i ≠ CacheEvent e k Error p) →
  error (exec (step opts ctx win i) w) = error w.
Proof.
  intros Hi.
  destruct i as [r|fn|p r|e k ev payload|ev|dt| |ops|item| |reason| ].
  4:{ cbn [step].
      destruct (dispatch_cases opts ctx e k ev payload w) as [->| ->];
        [reflexivity|].
      destruct ev; cbn; try reflexivity.
      - exfalso. eapply Hi. reflexivity.
      - destruct (clearOnForget opts ctx); reflexivity. }
  all: apply (preserves_exec (λ w', error w' = error w)); [|reflexivity];
    pres; cbn; assumption.
Qed.

Lemma error_kept_run later w :
  Forall (λ i, ∀ e k p, i ≠ CacheEvent e k Error p) later →
  error (run opts ctx win later w) = error w.
Proof.
  intros H. revert w. induction H as [|i later Hi _ IH]; intros w; [auto|].
  unfold run. cbn [fold_left].
  pose proof (IH (exec (step opts ctx win i) w)) as E.
  unfold run in E. rewrite E. apply error_kept_step, Hi.
Qed.

(** C6, as the code has it.  When an [error] event reaches the binder
    with a payload, the payload is stored in the error slot and nothing
    is thrown then.  Whatever happens until the next flush throws
    nothing either.  The flush throws the value the slot holds by then,
    once, if that value is not [undefined] and is not ([Object.is]) the
    value the watcher saw at its previous flush, and it throws nothing
    otherwise; a second flush right after it changes nothing.  The
    value the slot holds at the flush is the payload unless a later
    [error] event has replaced it. *)
Theorem C6_error_rethrown_on_change (w : World) (e : Engine) (k : string)
    (payload : JsVal) (later : list Input) :
  (∃ id, mkSub id e k Error ∈ subscriptions w) →
  Forall (λ i, i ≠ Flush) later →
  let w1 := exec (step opts ctx win (CacheEvent e k Error payload)) w in
  let w2 := run opts ctx win later w1 in
  let w3 := exec (step opts ctx win Flush) w2 in
  (error w1 = payload ∧ trace w1 = trace w ∧ errorSeen w1 = errorSeen w) ∧
  (rethrown (trace w2) = rethrown (trace w) ∧ errorSeen w2 = errorSeen w ∧
   (Forall (λ i, ∀ e' k' p', i ≠ CacheEvent e' k' Error p') later →
    error w2 = payload)) ∧
  (trace w3 =
     trace w2 ++
     (if bool_decide (error w2 ≠ errorSeen w ∧ error w2 ≠ VUndef)
      then [ERethrow (error w2)] else []) ∧
   error w3 = error w2 ∧ errorSeen w3 = error w2) ∧
  exec (step opts ctx win Flush) w3 = w3.
Proof.
  intros [id Hid] Hq. cbn zeta.
  assert (E1 : exec (step opts ctx win (CacheEvent e k Error payload)) w
               = set_error payload (set_isRefetching false w)).
  { cbn [step]. rewrite (dispatch_heard opts ctx _ _ _ _ _ _ Hid).
    reflexivity. }
  rewrite E1. set (w1 := set_error payload (set_isRefetching false w)).
  split; [repeat split|].
  destruct (quiet_run later w1 Hq) as [Hr Hs].
  change (rethrown (trace w1)) with (rethrown (trace w)) in Hr.
  change (errorSeen w1) with (errorSeen w) in Hs.
  split.
  { split; [exact Hr|]. split; [exact Hs|].
    intros Hn. apply (error_kept_run later w1 Hn). }
  set (w2 := run opts ctx win later w1) in *.
  assert (E3 : exec (step opts ctx win Flush) w2 =
               if bool_decide (error w2 ≠ errorSeen w ∧ error w2 ≠ VUndef)
               then set_errorSeen (error w2) (emitted (ERethrow (error w2)) w2)
               else set_errorSeen (error w2) w2).
  { cbn [step]. rewrite errorJob_spec, Hs. unfold hasChanged, object_is.
    destruct (decide (error w2 = errorSeen w)) as [E|E].
    - rewrite bool_decide_true by exact E. cbn [negb].
      rewrite bool_decide_false by tauto.
      rewrite E, <- Hs. destruct w2; reflexivity.
    - rewrite (bool_decide_false _ E). cbn [negb].
      destruct (decide (error w2 = VUndef)) as [U|U].
      + rewrite (bool_decide_false (error w2 ≠ VUndef)) by tauto.
        rewrite bool_decide_false by tauto. reflexivity.
      + rewrite (bool_decide_true (error w2 ≠ VUndef)) by exact U.
        rewrite bool_decide_true by tauto. reflexivity. }
  rewrite E3.
  split.
  - destruct (bool_decide _); cbn; rewrite ?app_nil_r; repeat split.
  - cbn [step]. rewrite errorJob_spec.
    assert (Hsame : ∀ w', error w' = errorSeen w' →
              (if hasChanged (error w') (errorSeen w')
               then set_errorSeen (error w')
                      (if bool_decide (error w' ≠ VUndef)
                       then emitted (ERethrow (error w')) w' else w')
               else w') = w').
    { intros w' Hw'. unfold hasChanged, object_is.
      rewrite bool_decide_true by exact Hw'. reflexivity. }
    apply Hsame. destruct (bool_decide _); reflexivity.
Qed.

(** ** The queries of the creation *)

(** While the initial query is awaited nothing is installed, so
    whatever happens has no effect but on the clock and on what the key
    function yields. *)
Lemma expecting_step t i w :
  (∀ r, i ≠ InitialSettled r) →
  expecting t w →
  expecting t (exec (step opts ctx win i) w) ∧
  key (exec (step opts ctx win i) w)
  = match i with DepsChanged fn => fn | _ => key w end.
Proof.
  intros Hi (Hst & Hw & Hp & Hs & Hl & Hr & He & Hes & Hf & Ht).
  assert (H : expecting t w) by (repeat split; assumption).
  destruct i as [r|fn|p r|en k ev payload|ev|dt| |ops|item| |reason| ].
  - exfalso. eapply Hi. reflexivity.
  - unfold step. rewrite exec_seq, job_unfold.
    change (watcher (exec (put (set_key fn)) w)) with (watcher w).
    rewrite Hw. split; [exact H|reflexivity].
  - cbn [step]. rewrite settle_spec, Hp. split; [exact H|reflexivity].
  - cbn [step]. rewrite dispatch_unheard by exact Hs.
    split; [exact H|reflexivity].
  - cbn [step]. rewrite fire_unheard; [split; [exact H|reflexivity]|].
    unfold hearing. rewrite Hl. reflexivity.
  - split; [exact H|reflexivity].
  - cbn [step]. rewrite errorJob_spec, He, Hes. split; [exact H|reflexivity].
  - cbn [step]. rewrite whenRunning_spec, Hst. split; [exact H|reflexivity].
  - cbn [step]. rewrite whenRunning_spec, Hst. split; [exact H|reflexivity].
  - cbn [step]. rewrite whenRunning_spec, Hst. split; [exact H|reflexivity].
  - cbn [step]. rewrite whenRunning_spec, Hst. split; [exact H|reflexivity].
  - cbn [step]. rewrite whenRunning_spec, Hst. split; [exact H|reflexivity].
Qed.

Lemma expecting_run t during w :
  Forall (λ i, ∀ r, i ≠ InitialSettled r) during →
  expecting t w →
  expecting t (run opts ctx win during w) ∧
  key (run opts ctx win during w) = default (key w) (last (keyChanges during)).
Proof.
  intros Hd. revert w. induction Hd as [|i during Hi _ IH]; intros w H.
  - split; [exact H|reflexivity].
  - unfold run. cbn [fold_left].
    destruct (expecting_step t i w Hi H) as [H1 Hk].
    destruct (IH _ H1) as [H2 Hk2]. unfold run in H2, Hk2.
    split; [exact H2|]. rewrite Hk2, Hk.
    assert (E : keyChanges (i :: during) =
                match i with
                | DepsChanged fn => fn :: keyChanges during
                | _ => keyChanges during
                end) by (destruct i; reflexivity).
    rewrite E. destruct i; try reflexivity.
    rewrite last_cons. destruct (last (keyChanges during)); reflexivity.
Qed.

(** C10, as the code has it.  When the key function yields an active
    key [s] at creation, [createTurboResource] issues the query
    [{ stale: true, ...options }] for [s] and suspends before any
    watcher exists; the query is stale-accepting unless the options of
    the binder carry a [stale] property of their own, which wins.
    Nothing else is queried while that query is awaited.  When it
    resolves with [v], [v] is the resource, the watcher is installed,
    and its immediate run queries, with the same options, the key as it
    is by then, which is the one of the last change of the reactive
    state during the await: [s] a second time when the key has not
    changed, the new key when it has changed to another active key, and
    nothing when it has become absent.  When the query of the watcher
    resolves with [v'], [v'] overwrites the resource.  When the initial
    query rejects there is no second query, whatever happens next. *)
Theorem C10_initial_query_issued_twice (fn : TurboVueKey) (now : Z)
    (s : string) (during : list Input) :
  active (computedKey fn) = Some s →
  Forall (λ i, ∀ r, i ≠ InitialSettled r) during →
  let q k := (facade opts ctx, k, queryOptions opts) in
  let w0 := create opts ctx win fn now in
  let wa := run opts ctx win during w0 in
  (queries (trace w0) = [q s] ∧ stage w0 = AwaitingInitial ∧
   watcher w0 = None) ∧
  queryOptions opts !! "stale"
  = Some (default (VBool true) (props opts !! "stale")) ∧
  (queries (trace wa) = [q s] ∧ stage wa = AwaitingInitial ∧
   watcher wa = None ∧ key wa = default fn (last (keyChanges during))) ∧
  (∀ v, let w1 := exec (step opts ctx win (InitialSettled (Returns v))) wa in
     stage w1 = Running ∧ resource w1 = v ∧
     match active (computedKey (key wa)) with
     | Some s' =>
         queries (trace w1) = [q s; q s'] ∧
         ∃ p set,
           pending w1 = [(p, set)] ∧
           ∀ v', resource
                   (run opts ctx win [QuerySettled p (Returns v')] w1) = v'
     | None => queries (trace w1) = [q s] ∧ pending w1 = []
     end) ∧
  (∀ e inputs,
     let w1 := run opts ctx win (InitialSettled (Throws e) :: inputs) wa in
     stage w1 = Failed e ∧ queries (trace w1) = [q s]).
Proof.
  intros H Hd. cbn zeta.
  assert (E0 : create opts ctx win fn now =
               set_stage AwaitingInitial
                 (emitted (EQuery (facade opts ctx) s (queryOptions opts))
                    (boot fn now)))
    by (apply create_active; exact H).
  assert (X0 : expecting [EQuery (facade opts ctx) s (queryOptions opts)]
                 (create opts ctx win fn now))
    by (rewrite E0; repeat split).
  assert (K0 : key (create opts ctx win fn now) = fn)
    by (rewrite E0; reflexivity).
  destruct (expecting_run _ during _ Hd X0) as [Xa Ka]. rewrite K0 in Ka.
  split; [rewrite E0; repeat split|]. split.
  { rewrite queryOptions_lookup.
    destruct (props opts !! "stale"); reflexivity. }
  set (wa := run opts ctx win during (create opts ctx win fn now)) in *.
  destruct Xa as (Hst & Hw & Hp & Hs & Hl & Hr & He & Hes & Hf & Ht).
  split; [rewrite Ht; repeat split; assumption|]. split.
  - intros v.
    rewrite step_initial_resolved by exact Hst.
    rewrite job_first by reflexivity.
    set (wi := set_watcher (Some (mkWatcher true None None)) _).
    change (key wi) with (key wa).
    split; [reflexivity|].
    destruct (active (computedKey (key wa))) as [s'|] eqn:Hs'.
    + destruct (watchCallback_active opts ctx win (computedKey (key wa)) s'
                  wi Hs')
        as (_ & _ & _ & Hres & _ & _ & _ & _ & _ & _ & Hq & _ & p & f & c & Hpw).
      set (wc := exec (watchCallback opts ctx win (computedKey (key wa))) wi)
        in *.
      set (w1 := set_stage Running (remember (computedKey (key wa)) wc)).
      change (pending wc) with (pending w1) in Hpw.
      change (pending wi) with (pending wa) in Hpw.
      rewrite Hp in Hpw. cbn [app] in Hpw.
      change (trace wi) with (trace wa) in Hq. rewrite Ht in Hq.
      split; [exact Hres|]. split; [exact Hq|].
      exists p. eexists. split; [exact Hpw|].
      intros v'. unfold run. cbn [fold_left]. unfold step.
      rewrite (settle_only _ _ _ _ Hpw). reflexivity.
    + rewrite (watchCallback_absent opts ctx win _ wi Hs').
      split; [reflexivity|]. split.
      * change (queries (trace wa) =
                [(facade opts ctx, s, queryOptions opts)]).
        rewrite Ht. reflexivity.
      * exact Hp.
  - intros e inputs. unfold run. cbn [fold_left].
    assert (H0 : stillborn e [EQuery (facade opts ctx) s (queryOptions opts)]
                   (exec (step opts ctx win (InitialSettled (Throws e))) wa)).
    { unfold step. rewrite exec_bind. unfold get. cbn [fst snd].
      rewrite Hst. repeat split; assumption. }
    revert H0.
    generalize (exec (step opts ctx win (InitialSettled (Throws e))) wa).
    induction inputs as [|i inputs IH]; intros w H0.
    + cbn [fold_left].
      destruct H0 as (Hst' & _ & _ & _ & _ & _ & _ & _ & _ & Ht').
      split; [exact Hst'|]. rewrite Ht'. reflexivity.
    + cbn [fold_left]. apply IH, stillborn_step, H0.
Qed.

End Revisited.

(** ** Instances and counterexamples *)

(** Two [error] events before one flush: the payload of the first is
    replaced and never thrown. *)
Lemma error_replaced_before_flush :
  let w := run None None true
             [CacheEvent ModuleEngine "A" Error (VStr "boom");
              CacheEvent ModuleEngine "A" Error (VStr "bang"); Flush]
             settledA in
  error w = VStr "bang" ∧ rethrown (trace w) = [VStr "bang"].
Proof. vm_compute. split; reflexivity. Qed.

Lemma C6_error_rethrown_instance :
  (∃ id, mkSub id ModuleEngine "A" Error ∈ subscriptions settledA) ∧
  Forall (λ i, i ≠ Flush) [Elapse 10; CallRefetch None] ∧
  let w1 := exec (step None None true
                    (CacheEvent ModuleEngine "A" Error (VStr "boom")))
              settledA in
  let w2 := run None None true [Elapse 10; CallRefetch None] w1 in
  let w3 := exec (step None None true Flush) w2 in
  (error w1 = VStr "boom" ∧ trace w1 = trace settledA ∧
   errorSeen w1 = errorSeen settledA) ∧
  (rethrown (trace w2) = rethrown (trace settledA) ∧
   errorSeen w2 = errorSeen settledA ∧
   (Forall (λ i, ∀ e' k' p', i ≠ CacheEvent e' k' Error p')
      [Elapse 10; CallRefetch None] →
    error w2 = VStr "boom")) ∧
  (trace w3 =
     trace w2 ++
     (if bool_decide (error w2 ≠ errorSeen settledA ∧ error w2 ≠ VUndef)
      then [ERethrow (error w2)] else []) ∧
   error w3 = error w2 ∧ errorSeen w3 = error w2) ∧
  exec (step None None true Flush) w3 = w3.
Proof.
  assert (H : ∃ id, mkSub id ModuleEngine "A" Error ∈ subscriptions settledA).
  { exists 3%nat. vm_compute.
    repeat first [apply list_elem_of_here | apply list_elem_of_further]. }
  assert (Q : Forall (λ i, i ≠ Flush) [Elapse 10; CallRefetch None])
    by (repeat constructor; discriminate).
  split; [exact H|]. split; [exact Q|].
  apply (C6_error_rethrown_on_change None None true settledA ModuleEngine "A"
           (VStr "boom") [Elapse 10; CallRefetch None] H Q).
Defined.

(** C10 as stated fails.  A binder constructed with [{ stale: false }]
    issues both queries of its creation with [stale: false]; when the
    key becomes absent while the initial query is awaited the watcher
    issues no query; when it moves to ["B"] the second query is for
    ["B"]; and when the initial query rejects there is no second
    query. *)
Lemma C10_second_query_not_for_the_same_key :
  (let options : option JsObj := Some {[ "stale" := VBool false ]} in
   let w := run options None true [InitialSettled (Returns (VNum 1))]
              (create options None true keyA 0) in
   map (λ q, (q.1, q.2 !! "stale")) (queries (trace w)) =
   [(ModuleEngine, "A", Some (VBool false));
    (ModuleEngine, "A", Some (VBool false))]) ∧
  (let w := run None None true
              [DepsChanged keyAbsent; InitialSettled (Returns (VNum 1))]
              (create None None true keyA 0) in
   stage w = Running ∧
   map fst (queries (trace w)) = [(ModuleEngine, "A")] ∧ pending w = []) ∧
  (let w := run None None true
              [DepsChanged keyB; InitialSettled (Returns (VNum 1))]
              (create None None true keyA 0) in
   map fst (queries (trace w)) = [(ModuleEngine, "A"); (ModuleEngine, "B")]) ∧
  (let w := run None None true [InitialSettled (Throws (VStr "down"))]
              (create None None true keyA 0) in
   stage w = Failed (VStr "down") ∧
   map fst (queries (trace w)) = [(ModuleEngine, "A")]).
Proof. vm_compute. repeat split. Qed.

Lemma C10_initial_query_instance :
  active (computedKey keyA) = Some "A" ∧
  Forall (λ i, ∀ r, i ≠ InitialSettled r) [Elapse 30; DepsChanged keyB] ∧
  let q k := (facade None None, k, queryOptions None) in
  let w0 := create None None true keyA 0 in
  let wa := run None None true [Elapse 30; DepsChanged keyB] w0 in
  (queries (trace w0) = [q "A"] ∧ stage w0 = AwaitingInitial ∧
   watcher w0 = None) ∧
  queryOptions None !! "stale"
  = Some (default (VBool true) (props None !! "stale")) ∧
  (queries (trace wa) = [q "A"] ∧ stage wa = AwaitingInitial ∧
   watcher wa = None ∧
   key wa = default keyA (last (keyChanges [Elapse 30; DepsChanged keyB]))) ∧
  (∀ v, let w1 := exec (step None None true (InitialSettled (Returns v))) wa in
     stage w1 = Running ∧ resource w1 = v ∧
     match active (computedKey (key wa)) with
     | Some s' =>
         queries (trace w1) = [q "A"; q s'] ∧
         ∃ p set,
           pending w1 = [(p, set)] ∧
           ∀ v', resource
                   (run None None true [QuerySettled p (Returns v')] w1) = v'
     | None => queries (trace w1) = [q "A"] ∧ pending w1 = []
     end) ∧
  (∀ e inputs,
     let w1 := run None None true (InitialSettled (Throws e) :: inputs) wa in
     stage w1 = Failed e ∧ queries (trace w1) = [q "A"]).
Proof.
  assert (Q : Forall (λ i, ∀ r, i ≠ InitialSettled r)
                [Elapse 30; DepsChanged keyB])
    by (repeat constructor; discriminate).
  split; [reflexivity|]. split; [exact Q|].
  apply (C10_initial_query_issued_twice None None true keyA 0 "A"
           [Elapse 30; DepsChanged keyB] eq_refl Q).
Defined.
